(** * Voice memo to calendar event: a shallow embedding of [src/main.py]

    The development follows the layout of the Python module: text
    primitives of the language ([str.strip], [str.split], [in]), the one
    regular expression of the Task Extractor, the date and time values of
    the Time Normalizer, the interactive completer, the event builder and
    the pipeline driver.  External collaborators (the date parser, the
    transcription service, the calendar service, the user at the terminal)
    are fields of an environment record; every function of the module is a
    computation in a small state and exception monad that records the
    observable effects in a log. *)

From Stdlib Require Import ZArith Ascii.
From stdpp Require Import base option list strings gmap.

Local Open Scope Z_scope.

(** ** Text

    A Python [str] is modelled by [string]; a character of the model is one
    byte of the UTF-8 encoding of the text.  Every delimiter the program
    looks for ([","], ["@"], ["."], [" at "], the newline) is an ASCII
    character, and a byte of that value never occurs inside the encoding of
    another character, so splitting and searching on bytes agrees with
    splitting and searching on code points. *)

Module Text.

Definition chr (n : nat) : string := String (ascii_of_nat n) "".

Definition NL : string := chr 10.

Fixpoint of_codes (l : list nat) : string :=
  match l with
  | [] => ""
  | n :: l' => String (ascii_of_nat n) (of_codes l')
  end.

(** Truth value of a string: [if s:] holds for the non-empty strings. *)
Definition truthy (s : string) : bool :=
  match s with
  | "" => false
  | String _ _ => true
  end.

(** *** [str.strip()]

    Without argument, [strip] removes the characters for which
    [str.isspace] holds from both ends: the ASCII controls 9 to 13 and 28
    to 31, the space, and the Unicode spaces U+0085, U+00A0, U+1680,
    U+2000 to U+200A, U+2028, U+2029, U+202F, U+205F and U+3000, here in
    their UTF-8 encoding of one, two or three bytes. *)

Definition space1 (c : ascii) : bool :=
  let n := nat_of_ascii c in
  ((9 <=? n) && (n <=? 13) || (28 <=? n) && (n <=? 32))%nat.

Definition space2 (c1 c2 : ascii) : bool :=
  let a := nat_of_ascii c1 in
  let b := nat_of_ascii c2 in
  ((a =? 194) && ((b =? 133) || (b =? 160)))%nat.

Definition space3 (c1 c2 c3 : ascii) : bool :=
  let a := nat_of_ascii c1 in
  let b := nat_of_ascii c2 in
  let c := nat_of_ascii c3 in
  ((a =? 225) && (b =? 154) && (c =? 128)
   || (a =? 226) && (b =? 128)
      && ((128 <=? c) && (c <=? 138) || (c =? 168) || (c =? 169) || (c =? 175))
   || (a =? 226) && (b =? 129) && (c =? 159)
   || (a =? 227) && (b =? 128) && (c =? 128))%nat.

Fixpoint lstrip (s : string) : string :=
  match s with
  | "" => ""
  | String c1 s1 =>
    if space1 c1 then lstrip s1
    else match s1 with
         | "" => s
         | String c2 s2 =>
           if space2 c1 c2 then lstrip s2
           else match s2 with
                | "" => s
                | String c3 s3 => if space3 c1 c2 c3 then lstrip s3 else s
                end
         end
  end.

(** The same scan on the reversed text: the bytes of an encoded space are
    met last byte first. *)
Fixpoint lstrip_rev (s : string) : string :=
  match s with
  | "" => ""
  | String c1 s1 =>
    if space1 c1 then lstrip_rev s1
    else match s1 with
         | "" => s
         | String c2 s2 =>
           if space2 c2 c1 then lstrip_rev s2
           else match s2 with
                | "" => s
                | String c3 s3 => if space3 c3 c2 c1 then lstrip_rev s3 else s
                end
         end
  end.

Definition rstrip (s : string) : string := String.rev (lstrip_rev (String.rev s)).

Definition strip (s : string) : string := rstrip (lstrip s).

(** *** [str.split(sep)] for a separator of one character *)

Fixpoint split (sep : ascii) (s : string) : list string :=
  match s with
  | "" => [""]
  | String c s' =>
    if Ascii.eqb c sep then "" :: split sep s'
    else match split sep s' with
         | [] => [String c ""]
         | x :: xs => String c x :: xs
         end
  end.

(** *** [c in s] for a text [c] of one character *)

Fixpoint contains (c : ascii) (s : string) : bool :=
  match s with
  | "" => false
  | String x s' => Ascii.eqb x c || contains c s'
  end.

(** [s] without its prefix [p], when [p] is a prefix of [s]. *)
Fixpoint strip_prefix (p s : string) : option string :=
  match p with
  | "" => Some s
  | String a p' =>
    match s with
    | "" => None
    | String b s' => if Ascii.eqb a b then strip_prefix p' s' else None
    end
  end.

(** The first [n] characters of [s]. *)
Fixpoint take (n : nat) (s : string) : string :=
  match n, s with
  | S n', String c s' => String c (take n' s')
  | _, _ => ""
  end.

End Text.


(** ** The regular expression of the Task Extractor

    The fragment of Python's [re] that the pattern
    [(?:schedule|book|arrange) a meeting with (.+?) at (.+?)(?:\.|$)]
    is written in, with the flag [re.IGNORECASE], and the backtracking
    matcher of [re.search]: alternatives are tried from left to right, a
    lazy repetition tries the shortest repetition first, and the search
    tries the start positions from left to right. *)

Module Re.

Inductive regex : Type :=
| Eps                           (* the empty pattern *)
| Lit (variants : list string)  (* one character of the pattern: the texts it matches *)
| AnyChar                       (* [.]: any character except the newline *)
| Cat (r1 r2 : regex)
| Alt (r1 r2 : regex)           (* [r1|r2] *)
| LazyPlusAny                   (* [.+?] *)
| Group (r : regex)             (* a capturing group [(r)] *)
| Eos.                          (* [$] without [re.MULTILINE] *)

Definition is_newline (c : ascii) : bool := Ascii.eqb c (ascii_of_nat 10).

(** [$] matches at the end of the text and before a newline that ends it. *)
Definition at_eos (s : string) : bool :=
  match s with
  | "" => true
  | String c "" => is_newline c
  | _ => false
  end.

(** The captures, in the order in which the groups are closed. *)
Definition captures := list string.

Definition cont := string → captures → option captures.

Definition orelse (a b : option captures) : option captures :=
  match a with
  | Some x => Some x
  | None => b
  end.

Fixpoint lit_match (variants : list string) (s : string)
    (k : string → option captures) : option captures :=
  match variants with
  | [] => None
  | v :: vs =>
    orelse (match Text.strip_prefix v s with
            | Some s' => k s'
            | None => None
            end)
           (lit_match vs s k)
  end.

(** [.+?]: one character, then the rest of the pattern; when the rest
    fails, one more character. *)
Fixpoint lazy_plus_any (s : string) (k : string → option captures) : option captures :=
  match s with
  | "" => None
  | String c s' =>
    if is_newline c then None
    else orelse (k s') (lazy_plus_any s' k)
  end.

(** The text that a group matched: what lies between the position [s]
    where it was opened and the position [s'] where it is closed. *)
Definition consumed (s s' : string) : string :=
  Text.take (String.length s - String.length s') s.

Fixpoint rmatch (r : regex) (s : string) (caps : captures) (k : cont) : option captures :=
  match r with
  | Eps => k s caps
  | Lit variants => lit_match variants s (λ s', k s' caps)
  | AnyChar =>
    match s with
    | "" => None
    | String c s' => if is_newline c then None else k s' caps
    end
  | Cat r1 r2 => rmatch r1 s caps (λ s' caps', rmatch r2 s' caps' k)
  | Alt r1 r2 => orelse (rmatch r1 s caps k) (rmatch r2 s caps k)
  | LazyPlusAny => lazy_plus_any s (λ s', k s' caps)
  | Group r' => rmatch r' s caps (λ s' caps', k s' (caps' ++ [consumed s s']))
  | Eos => if at_eos s then k s caps else None
  end.

Definition match_here (r : regex) (s : string) : option captures :=
  rmatch r s [] (λ _ caps, Some caps).

(** [re.search]: the first start position, from the left, at which the
    pattern matches; the position after the last character is tried too. *)
Fixpoint search (r : regex) (s : string) : option captures :=
  orelse (match_here r s)
         (match s with
          | "" => None
          | String _ s' => search r s'
          end).

(** A letter of the pattern under [re.IGNORECASE]: both cases of the
    letter and, for [i], [s] and [k], the non-ASCII letters that Python
    folds to them (U+0130 and U+0131, U+017F, U+212A). *)
Definition lower_of (c : ascii) : ascii :=
  let n := nat_of_ascii c in
  if ((65 <=? n) && (n <=? 90))%nat then ascii_of_nat (n + 32) else c.

Definition upper_of (c : ascii) : ascii :=
  let n := nat_of_ascii c in
  if ((97 <=? n) && (n <=? 122))%nat then ascii_of_nat (n - 32) else c.

Definition case_fixes (c : ascii) : list string :=
  let n := nat_of_ascii (lower_of c) in
  if (n =? 105)%nat then [Text.of_codes [196; 176]; Text.of_codes [196; 177]]%nat
  else if (n =? 115)%nat then [Text.of_codes [197; 191]]%nat
  else if (n =? 107)%nat then [Text.of_codes [226; 132; 170]]%nat
  else [].

Definition variants (c : ascii) : list string :=
  if Ascii.eqb (lower_of c) (upper_of c) then [String c ""]
  else String (lower_of c) "" :: String (upper_of c) "" :: case_fixes c.

Definition ichar (c : ascii) : regex := Lit (variants c).

(** A literal text of the pattern, one character after the other. *)
Fixpoint itext (s : string) : regex :=
  match s with
  | "" => Eps
  | String c s' => Cat (ichar c) (itext s')
  end.

(** *** What a pattern matches

    [matches r w rest caps]: the pattern [r] matches the text [w] when
    [rest] follows it, and its groups capture [caps].  This is the
    meaning of the pattern, without the order in which the matcher tries
    the possibilities. *)

Fixpoint no_newline (w : string) : bool :=
  match w with
  | "" => true
  | String c w' => negb (is_newline c) && no_newline w'
  end.

Inductive matches : regex → string → string → captures → Prop :=
| matches_eps rest : matches Eps "" rest []
| matches_lit variants v rest :
    v ∈ variants → matches (Lit variants) v rest []
| matches_any c rest :
    is_newline c = false → matches AnyChar (String c "") rest []
| matches_cat r1 r2 w1 w2 rest c1 c2 :
    matches r1 w1 (w2 +:+ rest) c1 →
    matches r2 w2 rest c2 →
    matches (Cat r1 r2) (w1 +:+ w2) rest (c1 ++ c2)
| matches_alt_l r1 r2 w rest c :
    matches r1 w rest c → matches (Alt r1 r2) w rest c
| matches_alt_r r1 r2 w rest c :
    matches r2 w rest c → matches (Alt r1 r2) w rest c
| matches_plus w rest :
    w ≠ "" → no_newline w = true → matches LazyPlusAny w rest []
| matches_group r w rest c :
    matches r w rest c → matches (Group r) w rest (c ++ [w])
| matches_eos rest :
    at_eos rest = true → matches Eos "" rest [].

(** [ieq p v]: the text [v] is the text [p] of the pattern, up to the case
    of its letters. *)
Inductive ieq : string → string → Prop :=
| ieq_nil : ieq "" ""
| ieq_cons c p v w : v ∈ variants c → ieq p w → ieq (String c p) (v +:+ w).

(** [m.group(n)] for [n] from 1. *)
Definition group (n : nat) (caps : captures) : string :=
  default "" (caps !! pred n).

End Re.

(** [re.search(r"(?:schedule|book|arrange) a meeting with (.+?) at (.+?)(?:\.|$)", _, re.IGNORECASE)] *)
Definition meeting_pattern : Re.regex :=
  Re.Cat (Re.Alt (Re.itext "schedule") (Re.Alt (Re.itext "book") (Re.itext "arrange")))
    (Re.Cat (Re.itext " a meeting with ")
       (Re.Cat (Re.Group Re.LazyPlusAny)
          (Re.Cat (Re.itext " at ")
             (Re.Cat (Re.Group Re.LazyPlusAny)
                (Re.Alt (Re.Lit ["."]) Re.Eos))))).

(** The pattern in the words of the specification: somewhere in the text,
    one of the three verbs, [" a meeting with "], a counterpart, [" at "],
    a time expression, and then a period or the end of the text; the
    counterpart and the time expression are not empty and hold no
    newline. *)
Definition meeting_request (text counterpart time_expr : string) : Prop :=
  ∃ before verb a_meeting_with at_ stop after,
    text = before +:+ verb +:+ a_meeting_with +:+ counterpart +:+ at_
           +:+ time_expr +:+ stop +:+ after ∧
    (Re.ieq "schedule" verb ∨ Re.ieq "book" verb ∨ Re.ieq "arrange" verb) ∧
    Re.ieq " a meeting with " a_meeting_with ∧
    Re.ieq " at " at_ ∧
    counterpart ≠ "" ∧ Re.no_newline counterpart = true ∧
    time_expr ≠ "" ∧ Re.no_newline time_expr = true ∧
    (stop = "." ∨ (stop = "" ∧ Re.at_eos after = true)).

Definition pattern_matches (text : string) : Prop :=
  ∃ counterpart time_expr, meeting_request text counterpart time_expr.

(** What a lazy group captures when a period or the end of the text
    follows it: a text without newline whose characters after the first
    are not periods. *)
Definition cut_at_period (w : string) : Prop :=
  ∃ c w', w = String c w' ∧ Text.contains "." w' = false ∧ Re.no_newline w = true.

(** ** Dates and times

    An aware [datetime.datetime] is its wall-clock reading, counted in
    microseconds from 0001-01-01T00:00:00, and its [tzinfo].  The offset
    of a zone from UTC depends on the wall-clock reading it is asked
    about: the date parser attaches the local zone when the text names
    none, and that zone changes its offset with daylight saving time.
    (The [fold] attribute, which tells apart the two readings of a
    repeated hour, is not modelled: a reading has one offset.) *)

Record tzinfo : Type := {
  tz_str : string;          (* [str(tzinfo)] *)
  tz_utcoffset : Z → Z      (* [utcoffset(dt)] for the wall clock of [dt], in microseconds *)
}.

Record datetime : Type := {
  wall : Z;
  dt_tzinfo : option tzinfo
}.

(** A [datetime.timedelta], in microseconds. *)
Definition timedelta := Z.

Definition timedelta_hours (h : Z) : timedelta := h * 3600 * 1000000.

(** [datetime.max.toordinal()]: the days from 0001-01-01 to 9999-12-31. *)
Definition MAXORDINAL : Z := 3652059.

Definition wall_max : Z := MAXORDINAL * 86400 * 1000000.

(** [dt + delta]: the wall clock moves, the zone stays; a result outside
    of the years 1 to 9999 raises [OverflowError]. *)
Definition datetime_add (dt : datetime) (delta : timedelta) : string + datetime :=
  let w := wall dt + delta in
  if (0 <=? w) && (w <? wall_max)
  then inr {| wall := w; dt_tzinfo := dt_tzinfo dt |}
  else inl "date value out of range".

(** The instant on the UTC time line: the wall clock less the offset
    that the zone has at that wall clock. *)
Definition utc_instant (dt : datetime) : Z :=
  wall dt - from_option (λ tz, tz_utcoffset tz (wall dt)) 0 (dt_tzinfo dt).

(** ** The calendar event *)

Record EventTime : Type := {
  dateTime : string;
  timeZone : string
}.

Record Reminder : Type := {
  method : string;
  minutes : Z
}.

Record Reminders : Type := {
  useDefault : bool;
  overrides : list Reminder
}.

Record Attendee : Type := {
  email : string
}.

Record Event : Type := {
  summary : string;
  description : string;
  start : EventTime;
  end_ : EventTime;
  location : string;
  attendees : list Attendee;
  reminders : Reminders;
  recurrence : option (list string)   (* [None]: the key is absent *)
}.

Definition set_description (d : string) (ev : Event) : Event :=
  {| summary := summary ev; description := d; start := start ev; end_ := end_ ev;
     location := location ev; attendees := attendees ev; reminders := reminders ev;
     recurrence := recurrence ev |}.

Definition set_attendees (a : list Attendee) (ev : Event) : Event :=
  {| summary := summary ev; description := description ev; start := start ev;
     end_ := end_ ev; location := location ev; attendees := a;
     reminders := reminders ev; recurrence := recurrence ev |}.

Definition set_recurrence (r : list string) (ev : Event) : Event :=
  {| summary := summary ev; description := description ev; start := start ev;
     end_ := end_ ev; location := location ev; attendees := attendees ev;
     reminders := reminders ev; recurrence := Some r |}.

(** An entry of the listing of upcoming events. *)
Record Item : Type := {
  item_summary : option string;
  item_start_dateTime : option string;
  item_start_date : option string
}.

(** ** The environment

    What the libraries and services answer.  A failure is the text of the
    exception that the call raises. *)

Inductive parse_result : Type :=
| Parsed (dt : datetime)
| NotParsed                     (* [dateparser.parse] returned [None] *)
| ParseRaised (msg : string).

Inductive transcribe_result : Type :=
| TranscribeRaised (msg : string)
| TranscriptError (error : string)   (* [status == TranscriptStatus.error] *)
| TranscriptCompleted (text : string).

Record Service : Type := {
  events_insert : Event → string + option string;  (* the [htmlLink] of the created event *)
  events_list : string → Z → string + list Item
}.

Record Env : Type := {
  dateparser_parse : string → parse_result;
  isoformat : datetime → string;
  json_dumps : gmap string string → string;
  transcriber_transcribe : string → transcribe_result;
  stdin : nat → option string;   (* the lines that the user types, in order;
                                    [None] from the end of the input on *)
  google_service : string + Service;
  utc_now : datetime
}.

(** ** Effects

    A computation starts with the number of lines of [stdin] that were
    read before it, and yields its outcome, the number of lines read
    after it and the log of what it printed, asked and sent to a service,
    in order. *)

Inductive effect : Type :=
| EPrint (text : string)
| EInput (prompt : string)
| ETranscribe (path : string)
| EAuthenticate
| EInsert (body : Event)
| EList (timeMin : string) (maxResults : Z).

Inductive outcome (A : Type) : Type :=
| Return (a : A)
| Raise (e : string)       (* an exception, with its message *)
| Timeout.                 (* the fuel of a loop ran out *)

Arguments Return {A} a.
Arguments Raise {A} e.
Arguments Timeout {A}.

Definition M (A : Type) : Type := nat → outcome A * nat * list effect.

Global Instance M_ret : MRet M := λ A a cursor, (Return a, cursor, []).

Global Instance M_bind : MBind M := λ A B f m cursor,
  match m cursor with
  | (Return a, cursor', l) =>
    let '(r, cursor'', l') := f a cursor' in (r, cursor'', l ++ l')
  | (Raise e, cursor', l) => (Raise e, cursor', l)
  | (Timeout, cursor', l) => (Timeout, cursor', l)
  end.

Definition raise {A : Type} (e : string) : M A := λ cursor, (Raise e, cursor, []).

Definition timeout {A : Type} : M A := λ cursor, (Timeout, cursor, []).

Definition emit (e : effect) : M unit := λ cursor, (Return (), cursor, [e]).

(** [try: body  except Exception as e: handler(e)] *)
Definition try_except {A : Type} (body : M A) (handler : string → M A) : M A :=
  λ cursor,
    match body cursor with
    | (Raise e, cursor', l) =>
      let '(r, cursor'', l') := handler e cursor' in (r, cursor'', l ++ l')
    | r => r
    end.

Definition print (text : string) : M unit := emit (EPrint text).

(** A run from the start of [stdin]. *)
Definition run_result {A : Type} (m : M A) : outcome A := (m O).1.1.

Definition run_log {A : Type} (m : M A) : list effect := (m O).2.

(** The mapping that a run returns, the empty one when it does not
    return. *)
Definition run_result_value (m : M (gmap string string)) : gmap string string :=
  match run_result m with
  | Return d => d
  | _ => ∅
  end.

(** [str(x)] for an optional text. *)
Definition str_opt (x : option string) : string := default "None" x.

(** [d.get(key, default)] *)
Definition dict_get (d : gmap string string) (key dflt : string) : string :=
  default dflt (d !! key).

(** ** The program *)

Section Program.

Context (env : Env).

(** [input(prompt)]: the prompt is shown and the next line is read; at
    the end of the input [EOFError] is raised. *)
Definition input (prompt : string) : M string :=
  λ cursor,
    match stdin env cursor with
    | Some line => (Return line, S cursor, [EInput prompt])
    | None => (Raise "EOF when reading a line", cursor, [EInput prompt])
    end.

(** [dateparser.parse(time_str, settings={'RETURN_AS_TIMEZONE_AWARE': True})] *)
Definition dateparser_call (time_str : string) : M (option datetime) :=
  match dateparser_parse env time_str with
  | Parsed dt => mret (Some dt)
  | NotParsed => mret None
  | ParseRaised msg => raise msg
  end.

(** The token file, the authorization flow and the construction of the
    client belong to the Google libraries: the environment says whether a
    service comes out of them. *)
Definition authenticate_google_calendar : M Service :=
  emit EAuthenticate;;
  match google_service env with
  | inl msg => raise msg
  | inr service => mret service
  end.

Definition transcribe_audio (audio_file_path : string) : M (option string) :=
  try_except
    (print "Transcribing audio...";;
     emit (ETranscribe audio_file_path);;
     match transcriber_transcribe env audio_file_path with
     | TranscribeRaised msg => raise msg
     | TranscriptError error =>
       print ("Transcription failed: " +:+ error);;
       mret None
     | TranscriptCompleted text => mret (Some text)
     end)
    (λ e, print ("Transcription error: " +:+ e);; mret None).

Definition extract_task_details (transcript_text : string) : M (gmap string string) :=
  try_except
    (print ("Transcript Text: " +:+ transcript_text);;
     match Re.search meeting_pattern transcript_text with
     | Some task =>
       let with_whom := Text.strip (Re.group 1 task) in
       let time_str := Text.strip (Re.group 2 task) in
       time_parsed ← dateparser_call time_str;
       match time_parsed with
       | None =>
         print "Failed to parse time.";;
         mret ∅
       | Some t =>
         let time_iso := isoformat env t in
         mret (<["task" := "Meeting with " +:+ with_whom]>
                 (<["with_whom" := with_whom]>
                    (<["date_time" := time_iso]> ∅)))
       end
     | None =>
       print "Failed to extract task details using regex.";;
       mret ∅
     end)
    (λ e, print ("Error extracting task details: " +:+ e);; mret ∅).

Record field_spec : Type := {
  question : string;
  mandatory : bool
}.

Definition required_fields : list (string * field_spec) :=
  [ ("task",
     {| question := "1. **Event Title**" +:+ Text.NL +:+
          "Please provide a clear and concise title for the event (e.g., 'Team Meeting', 'Client Call').";
        mandatory := true |});
    ("date_time",
     {| question := "2. **Date & Time**" +:+ Text.NL +:+
          "Please specify the date and time for the event (e.g., 'December 7, 2024, 3:00 PM EST').";
        mandatory := true |});
    ("location",
     {| question := "3. **Location**" +:+ Text.NL +:+
          "Please provide the location of the event. If it's virtual, include the meeting link and access details.";
        mandatory := false |});
    ("description",
     {| question := "4. **Description**" +:+ Text.NL +:+
          "Provide a brief description of the event’s purpose, agenda, or goals.";
        mandatory := false |});
    ("participants",
     {| question := "5. **Participants/Attendees**" +:+ Text.NL +:+
          "List who is invited to the event, including names and roles.";
        mandatory := false |});
    ("attachments",
     {| question := "6. **Attachments/Links**" +:+ Text.NL +:+
          "Include any necessary files or links to relevant resources (e.g., project files, articles).";
        mandatory := false |});
    ("recurrence",
     {| question := "7. **Recurrence**" +:+ Text.NL +:+
          "Will this event repeat? If yes, specify the pattern (daily, weekly, monthly, etc.) and any exceptions.";
        mandatory := false |});
    ("notes",
     {| question := "8. **Notes/Additional Information**" +:+ Text.NL +:+
          "Any additional details, such as parking information, special instructions, or pre-event preparation.";
        mandatory := false |});
    ("rsvp",
     {| question := "9. **Action Items/RSVP Requests**" +:+ Text.NL +:+
          "Does the event require attendees to RSVP or complete specific tasks beforehand? If yes, provide instructions.";
        mandatory := false |}) ].

(** [field in task_details and task_details[field]] *)
Definition filled (task_details : gmap string string) (field : string) : bool :=
  match task_details !! field with
  | Some v => Text.truthy v
  | None => false
  end.

(** The loop [while not response and details["mandatory"]:] for a mandatory
    field, entered with an empty [response]: it asks again until the answer
    is not empty, and returns that answer.  [fuel] bounds the number of
    iterations. *)
Fixpoint ask_again (fuel : nat) (details : field_spec) : M string :=
  match fuel with
  | O => timeout
  | S fuel' =>
    answer ← input ("This field is mandatory. " +:+ question details
                    +:+ Text.NL +:+ "Your Answer: ");
    let response := Text.strip answer in
    if Text.truthy response then mret response
    else ask_again fuel' details
  end.

(** The body of the loop over [required_fields.items()]. *)
Definition ask_field (fuel : nat) (task_details : gmap string string)
    (item : string * field_spec) : M (gmap string string) :=
  let '(field, details) := item in
  if filled task_details field then mret task_details
  else
    answer ← input (question details +:+ Text.NL +:+ "Your Answer: ");
    let response := Text.strip answer in
    if Text.truthy response then mret (<[field := response]> task_details)
    else if mandatory details then
      response' ← ask_again fuel details;
      mret (<[field := response']> task_details)
    else mret task_details.

Fixpoint ask_fields (fuel : nat) (fields : list (string * field_spec))
    (task_details : gmap string string) : M (gmap string string) :=
  match fields with
  | [] => mret task_details
  | item :: fields' =>
    task_details' ← ask_field fuel task_details item;
    ask_fields fuel fields' task_details'
  end.

Definition ask_follow_up_questions (fuel : nat) (task_details : gmap string string)
    : M (gmap string string) :=
  print (Text.NL +:+ "To create a detailed calendar event, please provide additional information where needed."
         +:+ Text.NL);;
  ask_fields fuel required_fields task_details.

Definition parse_time (time_str : string) : M datetime :=
  try_except
    (dt ← dateparser_call time_str;
     match dt with
     | None => raise "Unable to parse the provided date and time."
     | Some d => mret d
     end)
    (λ e, print ("Time parsing error: " +:+ e);; raise e).

(** [str(t.tzinfo) if t.tzinfo else 'UTC'] *)
Definition zone_label (t : datetime) : string :=
  match dt_tzinfo t with
  | Some tz => tz_str tz
  | None => "UTC"
  end.

(** The event dictionary of [create_calendar_event] when it is first
    written down. *)
Definition initial_event (task_details : gmap string string) (title : string)
    (start_time end_time : datetime) : Event :=
  {| summary := title;
     description := dict_get task_details "description" "";
     start := {| dateTime := isoformat env start_time; timeZone := zone_label start_time |};
     end_ := {| dateTime := isoformat env end_time; timeZone := zone_label end_time |};
     location := dict_get task_details "location" "";
     attendees := [];
     reminders := {| useDefault := false;
                     overrides := [ {| method := "email"; minutes := 24 * 60 |};
                                    {| method := "popup"; minutes := 30 |} ] |};
     recurrence := None |}.

Definition add_participants (task_details : gmap string string) (event : Event) : Event :=
  let participants := dict_get task_details "participants" "" in
  if Text.truthy participants then
    let attendees' :=
      (λ e, {| email := Text.strip e |}) <$>
        filter (λ e, Text.contains "@" e = true) (Text.split "," participants) in
    match attendees' with
    | [] => event
    | _ :: _ => set_attendees attendees' event
    end
  else event.

Definition add_attachments (task_details : gmap string string) (event : Event) : Event :=
  let attachments := dict_get task_details "attachments" "" in
  if Text.truthy attachments
  then set_description (description event +:+ Text.NL +:+ "Attachments/Links: " +:+ attachments) event
  else event.

Definition add_notes (task_details : gmap string string) (event : Event) : Event :=
  let notes := dict_get task_details "notes" "" in
  if Text.truthy notes
  then set_description (description event +:+ Text.NL +:+ "Notes: " +:+ notes) event
  else event.

Definition add_recurrence (task_details : gmap string string) (event : Event) : Event :=
  let recurrence := dict_get task_details "recurrence" "" in
  if Text.truthy recurrence
  then set_recurrence ["RRULE:FREQ=WEEKLY;COUNT=10"] event
  else event.

Definition add_rsvp (task_details : gmap string string) (event : Event) : Event :=
  let rsvp := dict_get task_details "rsvp" "" in
  if Text.truthy rsvp
  then set_description (description event +:+ Text.NL +:+ "RSVP: " +:+ rsvp) event
  else event.

(** The event as it stands before the insertion. *)
Definition build_event (task_details : gmap string string) (title : string)
    (start_time end_time : datetime) : Event :=
  add_rsvp task_details
    (add_recurrence task_details
       (add_notes task_details
          (add_attachments task_details
             (add_participants task_details
                (initial_event task_details title start_time end_time))))).

Definition create_calendar_event (service : Service) (task_details : gmap string string)
    : M unit :=
  try_except
    (let title := dict_get task_details "task" "No Title Provided" in
     let date_time_str := task_details !! "date_time" in
     match date_time_str with
     | Some (String c s) =>
       start_time ← parse_time (String c s);
       end_time ← match datetime_add start_time (timedelta_hours 1) with
                  | inl msg => raise msg
                  | inr t => mret t
                  end;
       let event := build_event task_details title start_time end_time in
       emit (EInsert event);;
       created_event ← match events_insert service event with
                       | inl msg => raise msg
                       | inr created => mret created
                       end;
       print (Text.NL +:+ "Event created successfully: " +:+ str_opt created_event)
     | _ =>
       (* [if not date_time_str:] the field is absent or empty *)
       print "Event date and time not provided."
     end)
    (λ e, print ("Error adding event to calendar: " +:+ e)).

Definition print_item (event : Item) : M unit :=
  let start :=
    match item_start_dateTime event with
    | Some t => Some t
    | None => item_start_date event
    end in
  let summary := default "No Title" (item_summary event) in
  print ("- " +:+ summary +:+ " at " +:+ str_opt start).

Fixpoint print_items (events : list Item) : M unit :=
  match events with
  | [] => mret ()
  | event :: events' => print_item event;; print_items events'
  end.

Definition display_upcoming_events (service : Service) (max_results : Z) : M unit :=
  try_except
    (print (Text.NL +:+ "Your Upcoming Events:");;
     let now := isoformat env (utc_now env) in
     emit (EList now max_results);;
     events ← match events_list service now max_results with
              | inl msg => raise msg
              | inr items => mret items
              end;
     match events with
     | [] => print "No upcoming events found."
     | _ :: _ => print_items events
     end)
    (λ e, print ("Error fetching upcoming events: " +:+ e)).

Definition main (fuel : nat) (audio_file_path : string) : M unit :=
  (* Step 1: Transcribe audio *)
  transcript_obj ← transcribe_audio audio_file_path;
  match transcript_obj with
  | None => print "Failed to transcribe audio."
  | Some transcript_text =>
    print (Text.NL +:+ "Transcript:" +:+ Text.NL +:+ transcript_text);;
    (* Step 2: Extract task details using basic parsing *)
    task_details ← extract_task_details transcript_text;
    if bool_decide (task_details = ∅) then print "Failed to extract task details."
    else
      print (Text.NL +:+ "Extracted Task Details:");;
      print (json_dumps env task_details);;
      (* Step 3: Ask follow-up questions for more details *)
      task_details ← ask_follow_up_questions fuel task_details;
      print (Text.NL +:+ "Final Task Details:");;
      print (json_dumps env task_details);;
      (* Step 4: Authenticate with Google Calendar *)
      service ← authenticate_google_calendar;
      (* Step 5: Add event to calendar with detailed information *)
      create_calendar_event service task_details;;
      (* Step 6: Display updated schedule *)
      display_upcoming_events service 10
  end.

End Program.

(** The events that a log hands to the calendar-write boundary. *)
Fixpoint inserted (l : list effect) : list Event :=
  match l with
  | [] => []
  | EInsert body :: l' => body :: inserted l'
  | _ :: l' => inserted l'
  end.

(** The prompts that a log shows to the user. *)
Fixpoint prompts (l : list effect) : list string :=
  match l with
  | [] => []
  | EInput prompt :: l' => prompt :: prompts l'
  | _ :: l' => prompts l'
  end.

(** Whether the listing of upcoming events was requested. *)
Definition is_list (e : effect) : bool :=
  match e with
  | EList _ _ => true
  | _ => false
  end.

(** The effects of a run that stops before the completer: printing and
    the call of the transcription service. *)
Definition quiet (e : effect) : Prop :=
  match e with
  | EPrint _ | ETranscribe _ => True
  | _ => False
  end.

(** ** The words of the specification

    *** Answers of the user

    A line is an answer when it is not empty once trimmed.
    [answered_at lines i]: line [i] was typed and is an answer;
    [blank_at lines i]: line [i] was typed and is no answer;
    [answered_between lines cursor n]: how many of the [n] lines from
    [cursor] on are answers; [typed_between lines cursor n]: the [n]
    lines from [cursor] on were all typed (the input does not end before
    them). *)
Definition answered (answer : string) : bool := Text.truthy (Text.strip answer).

Definition answered_at (lines : nat → option string) (i : nat) : bool :=
  from_option answered false (lines i).

Definition blank_at (lines : nat → option string) (i : nat) : bool :=
  from_option (λ line, negb (answered line)) false (lines i).

Definition answered_between (lines : nat → option string) (cursor n : nat) : nat :=
  length (filter (λ i, answered_at lines i = true) (seq cursor n)).

Definition typed_between (lines : nat → option string) (cursor n : nat) : Prop :=
  ∀ i, (cursor ≤ i < cursor + n)%nat → is_Some (lines i).

(** The mandatory fields that a mapping lacks: those the completer asks
    for until it gets an answer. *)
Definition missing_mandatory (task_details : gmap string string) : nat :=
  length (filter (λ item : string * field_spec,
                    mandatory item.2 = true ∧ filled task_details item.1 = false)
            required_fields).


(** The prompt of the first question about a field, and the fields that
    a mapping leaves to ask about, in the order of the form. *)
Definition first_prompt (item : string * field_spec) : string :=
  question item.2 +:+ Text.NL +:+ "Your Answer: ".

Definition unfilled (task_details : gmap string string)
    (fields : list (string * field_spec)) : list (string * field_spec) :=
  filter (λ item, filled task_details item.1 = false) fields.

(** *** Failure of the Building or Submitting step

    The [date_time] field does not parse, or the end time is not a
    [datetime], or the calendar refuses the event. *)
Definition build_or_submit_fails (env : Env) (service : Service)
    (task_details : gmap string string) : Prop :=
  ∃ s, task_details !! "date_time" = Some s ∧ s ≠ "" ∧
    match dateparser_parse env s with
    | Parsed start_time =>
      match datetime_add start_time (timedelta_hours 1) with
      | inr end_time =>
        ∃ msg, events_insert service
                 (build_event env task_details
                    (dict_get task_details "task" "No Title Provided")
                    start_time end_time) = inl msg
      | inl _ => True
      end
    | NotParsed | ParseRaised _ => True
    end.

(** *** The description

    A section of the description: a line with a label, present exactly
    when the field is present and not empty. *)
Definition section_line (task_details : gmap string string) (field label : string) : string :=
  match task_details !! field with
  | Some (String c v) => Text.NL +:+ label +:+ String c v
  | _ => ""
  end.

(** The description as the specification composes it: the raw
    description, the attachments line, the notes line, nothing else. *)
Definition description_per_spec (task_details : gmap string string) : string :=
  default "" (task_details !! "description")
  +:+ section_line task_details "attachments" "Attachments/Links: "
  +:+ section_line task_details "notes" "Notes: ".

(** ** A sample environment *)

Module Sample.

Definition zone : tzinfo :=
  {| tz_str := "UTC-05:00"; tz_utcoffset := λ _, -5 * 3600 * 1000000 |}.

(** 2024-12-08T15:00:00-05:00 *)
Definition start_time : datetime :=
  {| wall := (739227 * 86400 + 15 * 3600) * 1000000; dt_tzinfo := Some zone |}.

Definition parse (s : string) : parse_result :=
  if bool_decide (s = "3pm tomorrow" ∨ s = "2024-12-08T15:00:00-05:00")
  then Parsed start_time
  else NotParsed.

Definition iso (t : datetime) : string :=
  if wall t =? wall start_time then "2024-12-08T15:00:00-05:00"
  else if wall t =? wall start_time + timedelta_hours 1 then "2024-12-08T16:00:00-05:00"
  else "2024-12-08T20:30:00+00:00".

Definition service : Service :=
  {| events_insert := λ _, inr (Some "https://calendar.example/event?eid=1");
     events_list := λ _ _, inr [] |}.

(** A calendar that refuses every insertion. *)
Definition refusing_service : Service :=
  {| events_insert := λ _, inl "HttpError 403: quota exceeded";
     events_list := λ _ _, inr [] |}.

Definition env_with (transcript : string) (lines : list string) (s : Service) : Env :=
  {| dateparser_parse := parse;
     isoformat := iso;
     json_dumps := λ _, "{...}";
     transcriber_transcribe := λ _, TranscriptCompleted transcript;
     stdin := λ n, lines !! n;
     google_service := inr s;
     utc_now := {| wall := (739227 * 86400 + 20 * 3600 + 1800) * 1000000; dt_tzinfo := None |} |}.

(** The user presses return at each of the seven optional questions. *)
Definition returns : list string := [""; ""; ""; ""; ""; ""; ""].

Definition env : Env :=
  env_with "Schedule a meeting with Alice at 3pm tomorrow." returns service.

(** The same run against the calendar that refuses. *)
Definition refused_env : Env :=
  env_with "Schedule a meeting with Alice at 3pm tomorrow." returns refusing_service.

(** What the extractor makes of the sample transcript. *)
Definition extracted : gmap string string :=
  <["task" := "Meeting with Alice"]>
    (<["with_whom" := "Alice"]>
       (<["date_time" := "2024-12-08T15:00:00-05:00"]> ∅)).

(** A complete mapping with every optional field. *)
Definition details : gmap string string :=
  <["task" := "Meeting with Alice"]>
    (<["with_whom" := "Alice"]>
       (<["date_time" := "2024-12-08T15:00:00-05:00"]>
          (<["description" := "Quarterly review"]>
             (<["participants" := "a@x.com, b, c@y.com"]>
                (<["attachments" := "https://example.org/agenda"]>
                   (<["recurrence" := "none"]>
                      (<["notes" := "Bring the report"]>
                         (<["rsvp" := "Reply by Friday"]> ∅)))))))).

End Sample.

Module SampleDialogue.

(** What the user types: two blank lines, a title, a blank line, a time,
    a place, and so on. *)
Definition lines : list string :=
  [""; "  "; " Team sync "; ""; "tomorrow 5pm"; "Room 4"; ""; "a@x.com,bob";
   ""; ""; ""; ""].

Definition env : Env := Sample.env_with "" lines Sample.service.

(** A mapping with an empty title and no time. *)
Definition partial : gmap string string :=
  <["task" := ""]> (<["with_whom" := "Alice"]> ∅).

End SampleDialogue.

(** ** Samples at the edges *)

Module Edge.

(** 9999-12-31T23:30:00+00:00, half an hour before [datetime.max]. *)
Definition late_start : datetime :=
  {| wall := (3652058 * 86400 + 23 * 3600 + 1800) * 1000000; dt_tzinfo := None |}.

(** A parser that reads every text as [late_start]. *)
Definition late_env : Env :=
  {| dateparser_parse := λ _, Parsed late_start;
     isoformat := λ _, "9999-12-31T23:30:00";
     json_dumps := λ _, "{...}";
     transcriber_transcribe := λ _, TranscriptCompleted "";
     stdin := λ _, Some "";
     google_service := inr Sample.service;
     utc_now := Sample.start_time |}.

(** A mapping whose time no parser reads. *)
Definition unreadable : gmap string string :=
  <["task" := "Team sync"]> (<["date_time" := "next blursday"]> ∅).

(** A transcription service that is down, and an authorization that is
    refused. *)
Definition deaf_env : Env :=
  {| dateparser_parse := Sample.parse;
     isoformat := Sample.iso;
     json_dumps := λ _, "{...}";
     transcriber_transcribe := λ _, TranscribeRaised "connection refused";
     stdin := λ _, Some "";
     google_service := inr Sample.service;
     utc_now := Sample.start_time |}.

Definition unauthorized_env : Env :=
  {| dateparser_parse := Sample.parse;
     isoformat := Sample.iso;
     json_dumps := λ _, "{...}";
     transcriber_transcribe :=
       λ _, TranscriptCompleted "Schedule a meeting with Alice at 3pm tomorrow.";
     stdin := λ _, Some "";
     google_service := inl "invalid_grant";
     utc_now := Sample.start_time |}.

(** A mapping with all nine fields. *)
Definition full : gmap string string := <["location" := "Room 4"]> Sample.details.

(** A user who only ever presses return. *)
Definition silent_env : Env :=
  {| dateparser_parse := Sample.parse;
     isoformat := Sample.iso;
     json_dumps := λ _, "{...}";
     transcriber_transcribe := λ _, TranscriptCompleted "";
     stdin := λ _, Some "";
     google_service := inr Sample.service;
     utc_now := Sample.start_time |}.

(** A user whose input ends after three of the seven answers. *)
Definition ended_env : Env :=
  Sample.env_with "Schedule a meeting with Alice at 3pm tomorrow."
    ["Room 4"; ""; "a@x.com"] Sample.service.

End Edge.

(** ** A sample across the end of daylight saving time *)

Module Autumn.

(** The zone of New York in 2024: four hours behind UTC from the second
    Sunday of March, 02:00, to the first Sunday of November, 02:00, and
    five hours behind otherwise. *)
Definition spring : Z := (738954 * 86400 + 2 * 3600) * 1000000.

Definition autumn : Z := (739192 * 86400 + 2 * 3600) * 1000000.

Definition new_york : tzinfo :=
  {| tz_str := "America/New_York";
     tz_utcoffset := λ w, if (spring <=? w) && (w <? autumn)
                          then -4 * 3600 * 1000000
                          else -5 * 3600 * 1000000 |}.

(** 2024-11-03T01:30:00-04:00, half an hour before the clocks go back. *)
Definition start_time : datetime :=
  {| wall := (739192 * 86400 + 3600 + 1800) * 1000000; dt_tzinfo := Some new_york |}.

(** The offset that [isoformat] prints. *)
Definition offset_text (t : datetime) : string :=
  if utc_instant t - wall t =? 4 * 3600 * 1000000 then "-04:00" else "-05:00".

Definition iso (t : datetime) : string :=
  if wall t =? wall start_time then "2024-11-03T01:30:00" +:+ offset_text t
  else if wall t =? wall start_time + timedelta_hours 1
       then "2024-11-03T02:30:00" +:+ offset_text t
       else "2024-11-03T00:00:00" +:+ offset_text t.

Definition env : Env :=
  {| dateparser_parse := λ _, Parsed start_time;
     isoformat := iso;
     json_dumps := λ _, "{...}";
     transcriber_transcribe := λ _, TranscriptCompleted "";
     stdin := λ _, None;
     google_service := inr Sample.service;
     utc_now := Sample.start_time |}.

Definition details : gmap string string :=
  <["task" := "Night shift handover"]> (<["date_time" := "1:30am on November 3"]> ∅).

End Autumn.
(** * Properties

    ** Text *)

Module TextFacts.
Import Text.

Lemma truthy_true s : truthy s = true ↔ s ≠ "".
Proof. destruct s; simpl; split; intros; congruence. Qed.

Lemma truthy_false s : truthy s = false ↔ s = "".
Proof. destruct s; simpl; split; intros; congruence. Qed.

Lemma app_cons (x : ascii) (a b : string) : String x a +:+ b = String x (a +:+ b).
Proof. reflexivity. Qed.

Lemma app_nil_l (s : string) : "" +:+ s = s.
Proof. reflexivity. Qed.

Lemma app_nil_r (s : string) : s +:+ "" = s.
Proof. induction s as [|c s IH]; [done|]. by rewrite app_cons, IH. Qed.

Lemma app_assoc (a b c : string) : (a +:+ b) +:+ c = a +:+ b +:+ c.
Proof. induction a as [|x a IH]; [done|]. by rewrite !app_cons, IH. Qed.

Lemma length_app (a b : string) :
  String.length (a +:+ b) = (String.length a + String.length b)%nat.
Proof. induction a as [|x a IH]; [done|]. rewrite app_cons. cbn. by rewrite IH. Qed.

Lemma strip_prefix_Some p s s' : strip_prefix p s = Some s' ↔ s = p +:+ s'.
Proof.
  revert s. induction p as [|a p IH]; intros s; cbn.
  - split; [by intros [= ->] | by intros ->].
  - destruct s as [|b s]; [split; [done | by intros [=]] |].
    destruct (Ascii.eqb_spec a b) as [->|Hne].
    + rewrite IH, app_cons. split; [by intros -> | by intros [= ->]].
    + rewrite app_cons. split; [done | intros [= ? ?]; congruence].
Qed.

Lemma take_app (w rest : string) :
  take (String.length (w +:+ rest) - String.length rest) (w +:+ rest) = w.
Proof.
  rewrite length_app.
  replace (String.length w + String.length rest - String.length rest)%nat
    with (String.length w) by lia.
  induction w as [|c w IH].
  - rewrite app_nil_l. by destruct rest.
  - rewrite app_cons. cbn. by rewrite IH.
Qed.

End TextFacts.

Example strip_spaces : Text.strip "  a@x.com " = "a@x.com".
Proof. reflexivity. Qed.

Example strip_blank : Text.strip (" " +:+ Text.of_codes [9; 194; 160; 226; 128; 137]%nat) = "".
Proof. vm_compute. reflexivity. Qed.

Example strip_inner : Text.strip (Text.NL +:+ "3pm  tomorrow" +:+ Text.NL) = "3pm  tomorrow".
Proof. vm_compute. reflexivity. Qed.

Example split_commas : Text.split "," "a@x.com, b, c@y.com" = ["a@x.com"; " b"; " c@y.com"].
Proof. reflexivity. Qed.

Example split_trailing : Text.split "," "a,,b," = ["a"; ""; "b"; ""].
Proof. reflexivity. Qed.

Example search_alice :
  Re.search meeting_pattern "Schedule a meeting with Alice at 3pm tomorrow."
  = Some ["Alice"; "3pm tomorrow"].
Proof. vm_compute. reflexivity. Qed.

Example search_milk : Re.search meeting_pattern "Remind me to buy milk" = None.
Proof. vm_compute. reflexivity. Qed.

Example search_lazy :
  Re.search meeting_pattern "Please BOOK a meeting with Bob at the cafe at 5 at noon. Thanks."
  = Some ["Bob"; "the cafe at 5 at noon"].
Proof. vm_compute. reflexivity. Qed.

(** ** The matcher and the meaning of a pattern *)

Module ReFacts.
Import Re TextFacts.

Lemma orelse_Some a b x :
  orelse a b = Some x → a = Some x ∨ (a = None ∧ b = Some x).
Proof. destruct a; cbn; intros; [left|right]; auto. Qed.

Lemma orelse_is_Some a b : is_Some a ∨ is_Some b → is_Some (orelse a b).
Proof. destruct a; cbn; [eauto|]. intros [[? ?]|?]; [done|auto]. Qed.

Lemma lit_match_sound variants s k res :
  lit_match variants s k = Some res →
  ∃ v s', v ∈ variants ∧ s = v +:+ s' ∧ k s' = Some res.
Proof.
  induction variants as [|v vs IH]; cbn; [done|].
  intros [H|[_ H]]%orelse_Some.
  - destruct (Text.strip_prefix v s) as [s'|] eqn:Hp; [|done].
    apply strip_prefix_Some in Hp. exists v, s'. split_and!; [left|done..].
  - destruct (IH H) as (v' & s' & ? & ? & ?). exists v', s'.
    split_and!; [by right|done..].
Qed.

Lemma lit_match_complete variants v s' k :
  v ∈ variants → is_Some (k s') → is_Some (lit_match variants (v +:+ s') k).
Proof.
  intros Hin Hk. induction variants as [|v0 vs IH]; [by apply elem_of_nil in Hin|].
  cbn. apply orelse_is_Some. apply elem_of_cons in Hin as [->|Hin].
  - left. by rewrite (proj2 (strip_prefix_Some v0 (v0 +:+ s') s') eq_refl).
  - right. auto.
Qed.

Lemma lazy_plus_any_sound s k res :
  lazy_plus_any s k = Some res →
  ∃ w rest, s = w +:+ rest ∧ w ≠ "" ∧ no_newline w = true ∧ k rest = Some res.
Proof.
  induction s as [|c s IH]; cbn; [done|].
  destruct (is_newline c) eqn:Hc; [done|].
  intros [H|[_ H]]%orelse_Some.
  - exists (String c ""), s. cbn. rewrite Hc. by split_and!.
  - destruct (IH H) as (w & rest & -> & _ & Hw & Hk).
    exists (String c w), rest. cbn. rewrite Hc, Hw. by split_and!.
Qed.

Lemma lazy_plus_any_complete w rest k :
  w ≠ "" → no_newline w = true → is_Some (k rest) →
  is_Some (lazy_plus_any (w +:+ rest) k).
Proof.
  intros Hne Hw Hk. induction w as [|c w IH]; [done|].
  rewrite app_cons. cbn in *.
  apply andb_true_iff in Hw as [Hc Hw]. apply negb_true_iff in Hc. rewrite Hc.
  apply orelse_is_Some. destruct w as [|c' w]; [by left|].
  right. by apply IH.
Qed.

Lemma consumed_app w rest : consumed (w +:+ rest) rest = w.
Proof. apply take_app. Qed.

(** Whatever the matcher returns comes from a match of the pattern,
    followed by a success of the continuation. *)
Lemma rmatch_sound r : ∀ s caps k res,
  rmatch r s caps k = Some res →
  ∃ w rest c, s = w +:+ rest ∧ matches r w rest c ∧ k rest (caps ++ c) = Some res.
Proof.
  induction r as [|variants| |r1 IH1 r2 IH2|r1 IH1 r2 IH2| |r IH|];
    intros s caps k res; cbn.
  - intros H. exists "", s, []. rewrite List.app_nil_r. split_and!; [done|constructor|done].
  - intros (v & s' & Hin & -> & Hk)%lit_match_sound.
    exists v, s', []. rewrite List.app_nil_r. split_and!; [done|by constructor|done].
  - destruct s as [|c s]; [done|]. destruct (is_newline c) eqn:Hc; [done|].
    intros Hk. exists (String c ""), s, []. rewrite List.app_nil_r.
    split_and!; [done|by constructor|done].
  - intros (w1 & rest1 & c1 & -> & Hm1 & H2)%IH1.
    apply IH2 in H2 as (w2 & rest & c2 & -> & Hm2 & Hk).
    exists (w1 +:+ w2), rest, (c1 ++ c2).
    rewrite app_assoc, (assoc_L (++)). split_and!; [done|by constructor|done].
  - intros [H|[_ H]]%orelse_Some.
    + apply IH1 in H as (w & rest & c & -> & Hm & Hk).
      exists w, rest, c. split_and!; [done|by apply matches_alt_l|done].
    + apply IH2 in H as (w & rest & c & -> & Hm & Hk).
      exists w, rest, c. split_and!; [done|by apply matches_alt_r|done].
  - intros (w & rest & -> & Hne & Hw & Hk)%lazy_plus_any_sound.
    exists w, rest, []. rewrite List.app_nil_r. split_and!; [done|by constructor|done].
  - intros (w & rest & c & -> & Hm & Hk)%IH.
    rewrite consumed_app in Hk.
    exists w, rest, (c ++ [w]). rewrite (assoc_L (++)).
    split_and!; [done|by constructor|done].
  - destruct (at_eos s) eqn:He; [|done]. intros Hk.
    exists "", s, []. rewrite List.app_nil_r. split_and!; [done|by constructor|done].
Qed.

(** When the pattern matches and the continuation succeeds after the
    match, the matcher succeeds (possibly with another match, found
    first). *)
Lemma rmatch_complete r w rest c :
  matches r w rest c →
  ∀ caps k, is_Some (k rest (caps ++ c)) → is_Some (rmatch r (w +:+ rest) caps k).
Proof.
  induction 1 as [rest|variants v rest Hin|ch rest Hc
                 |r1 r2 w1 w2 rest c1 c2 _ IH1 _ IH2
                 |r1 r2 w rest c _ IH|r1 r2 w rest c _ IH
                 |w rest Hne Hw|r w rest c _ IH|rest He];
    intros caps k Hk; cbn.
  - by rewrite List.app_nil_r in Hk.
  - rewrite List.app_nil_r in Hk. by apply lit_match_complete.
  - rewrite List.app_nil_r in Hk. rewrite app_cons. cbn. by rewrite Hc.
  - rewrite app_assoc. apply IH1. apply IH2. by rewrite (assoc_L (++)) in Hk.
  - apply orelse_is_Some. left. by apply IH.
  - apply orelse_is_Some. right. by apply IH.
  - rewrite List.app_nil_r in Hk. by apply lazy_plus_any_complete.
  - apply IH. rewrite consumed_app. by rewrite (assoc_L (++)) in Hk.
  - rewrite List.app_nil_r in Hk. rewrite app_nil_l. by rewrite He.
Qed.

Lemma search_sound r s caps :
  search r s = Some caps →
  ∃ before w rest, s = before +:+ w +:+ rest ∧ matches r w rest caps.
Proof.
  induction s as [|a s IH]; cbn.
  - intros [H|[_ H]]%orelse_Some; [|done].
    apply rmatch_sound in H as (w & rest & c & Hs & Hm & [= <-]).
    exists "", w, rest. by rewrite app_nil_l.
  - intros [H|[_ H]]%orelse_Some.
    + apply rmatch_sound in H as (w & rest & c & Hs & Hm & [= <-]).
      exists "", w, rest. by rewrite app_nil_l.
    + destruct (IH H) as (before & w & rest & -> & Hm).
      by exists (String a before), w, rest.
Qed.

Lemma search_complete r before w rest caps :
  matches r w rest caps → is_Some (search r (before +:+ w +:+ rest)).
Proof.
  intros Hm. induction before as [|a before IH].
  - rewrite app_nil_l.
    assert (is_Some (match_here r (w +:+ rest))) as [x Hx].
    { apply (rmatch_complete _ _ _ _ Hm). cbn. eauto. }
    destruct (w +:+ rest); cbn; by rewrite Hx.
  - rewrite app_cons. cbn. apply orelse_is_Some. by right.
Qed.

(** A literal text of the pattern matches the texts that are equal to it
    up to case, and captures nothing. *)
Lemma matches_itext p w rest c : matches (itext p) w rest c ↔ ieq p w ∧ c = [].
Proof.
  split.
  - revert w c. induction p as [|a p IH]; intros w c; cbn; inversion 1; subst.
    + split; [constructor|done].
    + match goal with
      | H1 : matches (ichar _) _ _ _, H2 : matches (itext _) _ _ _ |- _ =>
          inversion H1; subst; apply IH in H2 as [? ->]
      end.
      split; [by constructor|done].
  - intros [Hi ->]. revert rest. induction Hi as [|a p v w Hv _ IH]; intros rest; cbn.
    + constructor.
    + apply (matches_cat _ _ _ _ _ [] []); [by constructor|apply IH].
Qed.

End ReFacts.

(** The pattern of the extractor matches exactly the meeting requests of
    the specification, and captures the counterpart and the time
    expression. *)
Lemma meeting_pattern_matches w rest caps :
  Re.matches meeting_pattern w rest caps ↔
  ∃ verb a_meeting_with counterpart at_ time_expr stop,
    w = verb +:+ a_meeting_with +:+ counterpart +:+ at_ +:+ time_expr +:+ stop ∧
    caps = [counterpart; time_expr] ∧
    (Re.ieq "schedule" verb ∨ Re.ieq "book" verb ∨ Re.ieq "arrange" verb) ∧
    Re.ieq " a meeting with " a_meeting_with ∧
    Re.ieq " at " at_ ∧
    counterpart ≠ "" ∧ Re.no_newline counterpart = true ∧
    time_expr ≠ "" ∧ Re.no_newline time_expr = true ∧
    (stop = "." ∨ (stop = "" ∧ Re.at_eos rest = true)).
Proof.
  unfold meeting_pattern. split.
  - intros H.
    inversion H as [| | |? ? verb w1 ? cv c1 Hverb H1| | | | |]; subst; clear H.
    inversion H1 as [| | |? ? amw w2 ? ca c2 Hamw H2| | | | |]; subst; clear H1.
    inversion H2 as [| | |? ? g1 w3 ? cg1 c3 Hg1 H3| | | | |]; subst; clear H2.
    inversion H3 as [| | |? ? at_ w4 ? cat c4 Hat H4| | | | |]; subst; clear H3.
    inversion H4 as [| | |? ? g2 stop ? cg2 c5 Hg2 Hstop| | | | |]; subst; clear H4.
    apply (ReFacts.matches_itext " a meeting with ") in Hamw as [Hamw ->].
    apply (ReFacts.matches_itext " at ") in Hat as [Hat ->].
    inversion Hg1 as [| | | | | | |? ? ? ? Hp1|]; subst; clear Hg1.
    inversion Hp1; subst; clear Hp1.
    inversion Hg2 as [| | | | | | |? ? ? ? Hp2|]; subst; clear Hg2.
    inversion Hp2; subst; clear Hp2.
    assert (cv = [] ∧ (Re.ieq "schedule" verb ∨ Re.ieq "book" verb
                       ∨ Re.ieq "arrange" verb)) as [-> Hv].
    { inversion Hverb as [| | | |? ? ? ? ? Ha|? ? ? ? ? Hb| | |]; subst; clear Hverb.
      - apply (ReFacts.matches_itext "schedule") in Ha as [? ->]. auto.
      - inversion Hb as [| | | |? ? ? ? ? Hb1|? ? ? ? ? Hb2| | |]; subst; clear Hb.
        + apply (ReFacts.matches_itext "book") in Hb1 as [? ->]. auto.
        + apply (ReFacts.matches_itext "arrange") in Hb2 as [? ->]. auto. }
    assert (c5 = [] ∧ (stop = "." ∨ (stop = "" ∧ Re.at_eos rest = true))) as [-> Hs].
    { inversion Hstop as [| | | |? ? ? ? ? Ha|? ? ? ? ? Hb| | |]; subst; clear Hstop.
      - inversion Ha as [|? ? ? Hin| | | | | | |]; subst.
        apply list_elem_of_singleton in Hin as ->. auto.
      - inversion Hb; subst. auto. }
    exists verb, amw, g1, at_, g2, stop. by split_and!.
  - intros (verb & amw & g1 & at_ & g2 & stop & -> & -> & Hv & Hamw & Hat
            & Hn1 & Hl1 & Hn2 & Hl2 & Hs).
    apply (Re.matches_cat _ _ _ _ _ [] [g1; g2]).
    { destruct Hv as [Hv|[Hv|Hv]].
      - apply Re.matches_alt_l. by apply ReFacts.matches_itext.
      - apply Re.matches_alt_r, Re.matches_alt_l. by apply ReFacts.matches_itext.
      - apply Re.matches_alt_r, Re.matches_alt_r. by apply ReFacts.matches_itext. }
    apply (Re.matches_cat _ _ _ _ _ [] [g1; g2]);
      [by apply ReFacts.matches_itext|].
    apply (Re.matches_cat _ _ _ _ _ [g1] [g2]);
      [apply (Re.matches_group _ _ _ []); by constructor|].
    apply (Re.matches_cat _ _ _ _ _ [] [g2]);
      [by apply ReFacts.matches_itext|].
    apply (Re.matches_cat _ _ _ _ _ [g2] []);
      [apply (Re.matches_group _ _ _ []); by constructor|].
    destruct Hs as [->|[-> He]].
    + apply Re.matches_alt_l. constructor. by left.
    + apply Re.matches_alt_r. by constructor.
Qed.

(** [re.search] finds a meeting request of the specification, and finds
    one whenever there is one. *)
Lemma search_meeting_request text caps :
  Re.search meeting_pattern text = Some caps →
  ∃ counterpart time_expr,
    caps = [counterpart; time_expr] ∧ meeting_request text counterpart time_expr.
Proof.
  intros (before & w & rest & -> & Hm)%ReFacts.search_sound.
  apply meeting_pattern_matches in Hm
    as (verb & amw & g1 & at_ & g2 & stop & -> & -> & Hm).
  exists g1, g2. split; [done|].
  exists before, verb, amw, at_, stop, rest.
  split; [|done]. by rewrite !TextFacts.app_assoc.
Qed.

Lemma pattern_matches_search text :
  pattern_matches text ↔ is_Some (Re.search meeting_pattern text).
Proof.
  split.
  - intros (g1 & g2 & before & verb & amw & at_ & stop & rest & -> & Hm).
    replace (before +:+ verb +:+ amw +:+ g1 +:+ at_ +:+ g2 +:+ stop +:+ rest)
      with (before +:+ (verb +:+ amw +:+ g1 +:+ at_ +:+ g2 +:+ stop) +:+ rest)
      by by rewrite !TextFacts.app_assoc.
    eapply ReFacts.search_complete.
    apply meeting_pattern_matches. exists verb, amw, g1, at_, g2, stop.
    split; [reflexivity|]. split; [reflexivity|]. exact Hm.
  - intros [caps (g1 & g2 & _ & Hm)%search_meeting_request]. by exists g1, g2.
Qed.

(** ** Running a computation *)

Ltac run_monad :=
  repeat (unfold mbind, M_bind, mret, M_ret, try_except, raise, timeout, print, emit; cbn).

(** ** The event builder *)

Section Builder.

Context (env : Env) (service : Service).

Implicit Types (task_details : gmap string string) (event : Event).

(** What [create_calendar_event] does, case by case: it always returns,
    reads nothing, and its log depends on the [date_time] field, the
    parser, the range of [datetime] and the calendar. *)
Lemma create_calendar_event_unfold task_details cursor :
  create_calendar_event env service task_details cursor =
  (Return (), cursor,
   match task_details !! "date_time" with
   | Some (String a s) =>
     match dateparser_parse env (String a s) with
     | Parsed start_time =>
       match datetime_add start_time (timedelta_hours 1) with
       | inr end_time =>
         let event := build_event env task_details
                        (dict_get task_details "task" "No Title Provided")
                        start_time end_time in
         match events_insert service event with
         | inr created =>
           [EInsert event;
            EPrint (Text.NL +:+ "Event created successfully: " +:+ str_opt created)]
         | inl msg =>
           [EInsert event; EPrint ("Error adding event to calendar: " +:+ msg)]
         end
       | inl msg => [EPrint ("Error adding event to calendar: " +:+ msg)]
       end
     | NotParsed =>
       [EPrint "Time parsing error: Unable to parse the provided date and time.";
        EPrint "Error adding event to calendar: Unable to parse the provided date and time."]
     | ParseRaised msg =>
       [EPrint ("Time parsing error: " +:+ msg);
        EPrint ("Error adding event to calendar: " +:+ msg)]
     end
   | _ => [EPrint "Event date and time not provided."]
   end).
Proof.
  unfold create_calendar_event.
  destruct (task_details !! "date_time") as [[|a s]|]; [reflexivity| |reflexivity].
  unfold parse_time, dateparser_call.
  destruct (dateparser_parse env (String a s)) as [start_time| |msg];
    [|reflexivity|reflexivity].
  run_monad.
  destruct (datetime_add start_time (timedelta_hours 1)) as [msg|end_time];
    [reflexivity|].
  run_monad.
  destruct (events_insert service _) as [msg|created]; reflexivity.
Qed.


(** When the [date_time] field parses and the end time is in range, the
    builder hands exactly one event to the calendar: the one that
    [build_event] describes. *)
Lemma create_calendar_event_inserts task_details s start_time end_time :
  task_details !! "date_time" = Some s →
  s ≠ "" →
  dateparser_parse env s = Parsed start_time →
  datetime_add start_time (timedelta_hours 1) = inr end_time →
  inserted (run_log (create_calendar_event env service task_details))
  = [build_event env task_details (dict_get task_details "task" "No Title Provided")
       start_time end_time].
Proof.
  intros Hdt Hne Hparse Hadd. unfold run_log.
  rewrite create_calendar_event_unfold, Hdt.
  destruct s as [|a s]; [done|]. rewrite Hparse, Hadd. cbn.
  by destruct (events_insert service _).
Qed.


Lemma datetime_add_inr start_time delta end_time :
  datetime_add start_time delta = inr end_time →
  wall end_time = wall start_time + delta ∧
  dt_tzinfo end_time = dt_tzinfo start_time ∧
  0 ≤ wall end_time < wall_max.
Proof.
  unfold datetime_add.
  destruct (0 <=? wall start_time + delta) eqn:H0; [|done].
  destruct (wall start_time + delta <? wall_max) eqn:H1; [|done].
  apply Z.leb_le in H0. apply Z.ltb_lt in H1.
  cbn. intros [= <-]. cbn. split_and!; [done..|lia|lia].
Qed.


(** The fields that the later steps of the builder leave alone. *)
Lemma build_event_start task_details title start_time end_time :
  start (build_event env task_details title start_time end_time)
  = {| dateTime := isoformat env start_time; timeZone := zone_label start_time |}.
Proof.
  unfold build_event, add_rsvp, add_recurrence, add_notes, add_attachments,
    add_participants.
  repeat (case_match; cbn); reflexivity.
Qed.

Lemma build_event_end task_details title start_time end_time :
  end_ (build_event env task_details title start_time end_time)
  = {| dateTime := isoformat env end_time; timeZone := zone_label end_time |}.
Proof.
  unfold build_event, add_rsvp, add_recurrence, add_notes, add_attachments,
    add_participants.
  repeat (case_match; cbn); reflexivity.
Qed.

Lemma dict_get_truthy task_details key :
  Text.truthy (dict_get task_details key "") = true
  ↔ ∃ v, task_details !! key = Some v ∧ v ≠ "".
Proof.
  unfold dict_get. destruct (task_details !! key) as [v|]; cbn.
  - rewrite TextFacts.truthy_true. split; [eauto|]. by intros (? & [= <-] & ?).
  - split; [done|]. by intros (? & ? & ?).
Qed.

Lemma section_line_get task_details field label :
  section_line task_details field label
  = if Text.truthy (dict_get task_details field "")
    then Text.NL +:+ label +:+ dict_get task_details field ""
    else "".
Proof.
  unfold section_line, dict_get.
  by destruct (task_details !! field) as [[|c v]|].
Qed.

Lemma build_event_description task_details title start_time end_time :
  description (build_event env task_details title start_time end_time)
  = default "" (task_details !! "description")
    +:+ section_line task_details "attachments" "Attachments/Links: "
    +:+ section_line task_details "notes" "Notes: "
    +:+ section_line task_details "rsvp" "RSVP: ".
Proof.
  rewrite !section_line_get.
  unfold build_event, add_rsvp, add_recurrence, add_notes, add_attachments,
    add_participants, initial_event.
  repeat (case_match; cbn);
    rewrite ?TextFacts.app_assoc, ?TextFacts.app_nil_r; reflexivity.
Qed.

Lemma build_event_recurrence task_details title start_time end_time :
  recurrence (build_event env task_details title start_time end_time)
  = if Text.truthy (dict_get task_details "recurrence" "")
    then Some ["RRULE:FREQ=WEEKLY;COUNT=10"]
    else None.
Proof.
  unfold build_event, add_rsvp, add_recurrence, add_notes, add_attachments,
    add_participants, initial_event.
  repeat (case_match; cbn); reflexivity.
Qed.

Lemma build_event_attendees task_details title start_time end_time :
  attendees (build_event env task_details title start_time end_time)
  = (λ e, {| email := Text.strip e |}) <$>
      filter (λ e, Text.contains "@" e = true)
        (Text.split "," (default "" (task_details !! "participants"))).
Proof.
  assert (Hp : ∀ ev,
    attendees (add_participants task_details ev) =
    if Text.truthy (dict_get task_details "participants" "")
    then match (λ e, {| email := Text.strip e |}) <$>
                 filter (λ e, Text.contains "@" e = true)
                   (Text.split "," (dict_get task_details "participants" "")) with
         | [] => attendees ev
         | x :: l => x :: l
         end
    else attendees ev).
  { intros ev. unfold add_participants.
    destruct (Text.truthy _); [|done]. by case_match. }
  transitivity (attendees (add_participants task_details
                  (initial_event env task_details title start_time end_time))).
  { unfold build_event, add_rsvp, add_recurrence, add_notes, add_attachments.
    repeat (case_match; cbn); reflexivity. }
  rewrite Hp. unfold dict_get. cbn.
  destruct (default "" (task_details !! "participants")) as [|c p] eqn:Hd.
  - reflexivity.
  - cbn [Text.truthy].
    match goal with |- match ?l with _ => _ end = _ => by destruct l end.
Qed.

End Builder.

(** *** Claims about the built event *)

(** The end time on the UTC time line: one hour after the start, plus
    what the zone's offset lost between the two wall-clock readings. *)
Lemma datetime_add_utc_instant start_time delta end_time tz :
  dt_tzinfo start_time = Some tz →
  datetime_add start_time delta = inr end_time →
  utc_instant end_time - utc_instant start_time
  = delta + (tz_utcoffset tz (wall start_time) - tz_utcoffset tz (wall start_time + delta)).
Proof.
  intros Htz (Hwall & Htz' & _)%datetime_add_inr.
  unfold utc_instant. rewrite Htz', Htz, Hwall. cbn. lia.
Qed.




Example sample_event_times :
  (λ event, (dateTime (start event), dateTime (end_ event), timeZone (end_ event))) <$>
    inserted (run_log (create_calendar_event Sample.env Sample.service Sample.details))
  = [("2024-12-08T15:00:00-05:00", "2024-12-08T16:00:00-05:00", "UTC-05:00")].
Proof. vm_compute. reflexivity. Qed.

(** C3, as the specification has it, fails: with a non-empty [rsvp] field
    the description of the built event carries an RSVP line after the
    notes. *)
Lemma description_per_spec_counterexample :
  ∃ event,
    inserted (run_log (create_calendar_event Sample.env Sample.service Sample.details))
    = [event] ∧
    description event
    = description_per_spec Sample.details +:+ Text.NL +:+ "RSVP: Reply by Friday" ∧
    description event ≠ description_per_spec Sample.details.
Proof.
  eexists. split; [vm_compute; reflexivity|]. split; [vm_compute; reflexivity|].
  vm_compute. discriminate.
Qed.

(** C3, amended. The description of the built event is the raw
    [description] field (the empty text when absent), then the
    Attachments/Links line exactly when [attachments] is present and not
    empty, then the Notes line exactly when [notes] is, then the RSVP line
    exactly when [rsvp] is, and nothing else. *)
Theorem description_composition env service (task_details : gmap string string)
    s start_time end_time :
  task_details !! "date_time" = Some s →
  s ≠ "" →
  dateparser_parse env s = Parsed start_time →
  datetime_add start_time (timedelta_hours 1) = inr end_time →
  ∃ event,
    inserted (run_log (create_calendar_event env service task_details)) = [event] ∧
    description event
    = default "" (task_details !! "description")
      +:+ section_line task_details "attachments" "Attachments/Links: "
      +:+ section_line task_details "notes" "Notes: "
      +:+ section_line task_details "rsvp" "RSVP: ".
Proof.
  intros Hdt Hne Hparse Hadd. eexists. split.
  - by eapply create_calendar_event_inserts.
  - apply build_event_description.
Qed.

Lemma description_composition_witness :
  ∃ event,
    inserted (run_log (create_calendar_event Sample.env Sample.service Sample.details))
    = [event] ∧
    description event
    = default "" (Sample.details !! "description")
      +:+ section_line Sample.details "attachments" "Attachments/Links: "
      +:+ section_line Sample.details "notes" "Notes: "
      +:+ section_line Sample.details "rsvp" "RSVP: ".
Proof.
  apply (description_composition Sample.env Sample.service Sample.details
           "2024-12-08T15:00:00-05:00" Sample.start_time
           {| wall := wall Sample.start_time + timedelta_hours 1;
              dt_tzinfo := Some Sample.zone |}).
  - vm_compute. reflexivity.
  - discriminate.
  - vm_compute. reflexivity.
  - vm_compute. reflexivity.
Defined.

(** C6. The built event has the recurrence key, with the one fixed value
    [["RRULE:FREQ=WEEKLY;COUNT=10"]], when the [recurrence] field is present
    and not empty, whatever its text; it has no recurrence key when the
    field is empty or absent. *)
Theorem recurrence_is_binary env service (task_details : gmap string string)
    s start_time end_time :
  task_details !! "date_time" = Some s →
  s ≠ "" →
  dateparser_parse env s = Parsed start_time →
  datetime_add start_time (timedelta_hours 1) = inr end_time →
  ∃ event,
    inserted (run_log (create_calendar_event env service task_details)) = [event] ∧
    ((∃ v, task_details !! "recurrence" = Some v ∧ v ≠ "") →
     recurrence event = Some ["RRULE:FREQ=WEEKLY;COUNT=10"]) ∧
    (task_details !! "recurrence" = None ∨ task_details !! "recurrence" = Some "" →
     recurrence event = None).
Proof.
  intros Hdt Hne Hparse Hadd. eexists. split.
  - by eapply create_calendar_event_inserts.
  - rewrite build_event_recurrence. split.
    + intros Hv. apply dict_get_truthy in Hv. by rewrite Hv.
    + unfold dict_get. by intros [-> | ->].
Qed.

Lemma recurrence_is_binary_witness :
  ∃ event,
    inserted (run_log (create_calendar_event Sample.env Sample.service Sample.details))
    = [event] ∧
    ((∃ v, Sample.details !! "recurrence" = Some v ∧ v ≠ "") →
     recurrence event = Some ["RRULE:FREQ=WEEKLY;COUNT=10"]) ∧
    (Sample.details !! "recurrence" = None ∨ Sample.details !! "recurrence" = Some "" →
     recurrence event = None).
Proof.
  apply (recurrence_is_binary Sample.env Sample.service Sample.details
           "2024-12-08T15:00:00-05:00" Sample.start_time
           {| wall := wall Sample.start_time + timedelta_hours 1;
              dt_tzinfo := Some Sample.zone |}).
  - vm_compute. reflexivity.
  - discriminate.
  - vm_compute. reflexivity.
  - vm_compute. reflexivity.
Defined.

(** The sample mapping says [recurrence = "none"]: the event recurs
    weekly all the same. *)
Example sample_recurrence :
  recurrence <$>
    inserted (run_log (create_calendar_event Sample.env Sample.service Sample.details))
  = [Some ["RRULE:FREQ=WEEKLY;COUNT=10"]].
Proof. vm_compute. reflexivity. Qed.

(** C7. The attendees of the built event are the entries of the
    [participants] text, split on commas, that contain an [@], in order,
    each trimmed and wrapped in a record; for ["a@x.com, b, c@y.com"] these
    are [a@x.com] and [c@y.com]. *)
Theorem attendees_are_the_addresses env service (task_details : gmap string string)
    s start_time end_time :
  task_details !! "date_time" = Some s →
  s ≠ "" →
  dateparser_parse env s = Parsed start_time →
  datetime_add start_time (timedelta_hours 1) = inr end_time →
  ∃ event,
    inserted (run_log (create_calendar_event env service task_details)) = [event] ∧
    attendees event
    = (λ e, {| email := Text.strip e |}) <$>
        filter (λ e, Text.contains "@" e = true)
          (Text.split "," (default "" (task_details !! "participants"))) ∧
    (task_details !! "participants" = Some "a@x.com, b, c@y.com" →
     attendees event = [ {| email := "a@x.com" |}; {| email := "c@y.com" |} ]).
Proof.
  intros Hdt Hne Hparse Hadd. eexists. split.
  - by eapply create_calendar_event_inserts.
  - rewrite build_event_attendees. split; [done|].
    intros ->. vm_compute. reflexivity.
Qed.

Lemma attendees_are_the_addresses_witness :
  ∃ event,
    inserted (run_log (create_calendar_event Sample.env Sample.service Sample.details))
    = [event] ∧
    attendees event
    = (λ e, {| email := Text.strip e |}) <$>
        filter (λ e, Text.contains "@" e = true)
          (Text.split "," (default "" (Sample.details !! "participants"))) ∧
    (Sample.details !! "participants" = Some "a@x.com, b, c@y.com" →
     attendees event = [ {| email := "a@x.com" |}; {| email := "c@y.com" |} ]).
Proof.
  apply (attendees_are_the_addresses Sample.env Sample.service Sample.details
           "2024-12-08T15:00:00-05:00" Sample.start_time
           {| wall := wall Sample.start_time + timedelta_hours 1;
              dt_tzinfo := Some Sample.zone |}).
  - vm_compute. reflexivity.
  - discriminate.
  - vm_compute. reflexivity.
  - vm_compute. reflexivity.
Defined.

(** C9. With a present, non-empty [rsvp] field the description of the
    built event is the description with its Attachments/Links and Notes
    sections followed by the line ["RSVP: "] and the field; with an empty
    or absent [rsvp] field nothing follows those sections. *)
Theorem rsvp_line_is_appended env service (task_details : gmap string string)
    s start_time end_time :
  task_details !! "date_time" = Some s →
  s ≠ "" →
  dateparser_parse env s = Parsed start_time →
  datetime_add start_time (timedelta_hours 1) = inr end_time →
  ∃ event,
    inserted (run_log (create_calendar_event env service task_details)) = [event] ∧
    (∀ rsvp, task_details !! "rsvp" = Some rsvp → rsvp ≠ "" →
       description event
       = description_per_spec task_details +:+ Text.NL +:+ "RSVP: " +:+ rsvp) ∧
    (task_details !! "rsvp" = None ∨ task_details !! "rsvp" = Some "" →
     description event = description_per_spec task_details).
Proof.
  intros Hdt Hne Hparse Hadd. eexists. split.
  - by eapply create_calendar_event_inserts.
  - rewrite build_event_description. unfold description_per_spec.
    set (d := default "" _). set (a := section_line _ "attachments" _).
    set (n := section_line _ "notes" _). split.
    + intros rsvp Hr Hr'. unfold section_line. rewrite Hr.
      destruct rsvp as [|c v]; [done|].
      by rewrite !TextFacts.app_assoc.
    + unfold section_line at 1.
      intros [-> | ->]; by rewrite TextFacts.app_nil_r.
Qed.

Lemma rsvp_line_is_appended_witness :
  ∃ event,
    inserted (run_log (create_calendar_event Sample.env Sample.service Sample.details))
    = [event] ∧
    (∀ rsvp, Sample.details !! "rsvp" = Some rsvp → rsvp ≠ "" →
       description event
       = description_per_spec Sample.details +:+ Text.NL +:+ "RSVP: " +:+ rsvp) ∧
    (Sample.details !! "rsvp" = None ∨ Sample.details !! "rsvp" = Some "" →
     description event = description_per_spec Sample.details).
Proof.
  apply (rsvp_line_is_appended Sample.env Sample.service Sample.details
           "2024-12-08T15:00:00-05:00" Sample.start_time
           {| wall := wall Sample.start_time + timedelta_hours 1;
              dt_tzinfo := Some Sample.zone |}).
  - vm_compute. reflexivity.
  - discriminate.
  - vm_compute. reflexivity.
  - vm_compute. reflexivity.
Defined.

(** C10. Without a [date_time] field, or with an empty one,
    [create_calendar_event] returns normally: it prints that the date and
    time were not provided and does nothing else; in particular nothing is
    handed to the calendar. *)
Theorem missing_date_time_returns env service (task_details : gmap string string) cursor :
  task_details !! "date_time" = None ∨ task_details !! "date_time" = Some "" →
  create_calendar_event env service task_details cursor
  = (Return (), cursor, [EPrint "Event date and time not provided."]) ∧
  inserted (create_calendar_event env service task_details cursor).2 = [].
Proof.
  intros H. rewrite create_calendar_event_unfold.
  by destruct H as [-> | ->].
Qed.

Lemma missing_date_time_returns_witness :
  create_calendar_event Sample.env Sample.service (<["task" := "Team Meeting"]> ∅) 0%nat
  = (Return (), 0%nat, [EPrint "Event date and time not provided."]) ∧
  inserted (create_calendar_event Sample.env Sample.service
              (<["task" := "Team Meeting"]> ∅) 0%nat).2 = [].
Proof.
  apply (missing_date_time_returns Sample.env Sample.service
           (<["task" := "Team Meeting"]> ∅) 0%nat).
  left. vm_compute. reflexivity.
Defined.

(** ** The task extractor *)

(** What [extract_task_details] does, case by case: it always returns and
    reads nothing. *)
Lemma extract_task_details_unfold env text cursor :
  extract_task_details env text cursor =
  match Re.search meeting_pattern text with
  | Some task =>
    let with_whom := Text.strip (Re.group 1 task) in
    match dateparser_parse env (Text.strip (Re.group 2 task)) with
    | Parsed t =>
      (Return (<["task" := "Meeting with " +:+ with_whom]>
                 (<["with_whom" := with_whom]>
                    (<["date_time" := isoformat env t]> ∅))),
       cursor, [EPrint ("Transcript Text: " +:+ text)])
    | NotParsed =>
      (Return ∅, cursor,
       [EPrint ("Transcript Text: " +:+ text); EPrint "Failed to parse time."])
    | ParseRaised msg =>
      (Return ∅, cursor,
       [EPrint ("Transcript Text: " +:+ text);
        EPrint ("Error extracting task details: " +:+ msg)])
    end
  | None =>
    (Return ∅, cursor,
     [EPrint ("Transcript Text: " +:+ text);
      EPrint "Failed to extract task details using regex."])
  end.
Proof.
  unfold extract_task_details, dateparser_call.
  destruct (Re.search meeting_pattern text) as [task|]; [|reflexivity].
  cbv zeta. by destruct (dateparser_parse env _).
Qed.

(** The extractor returns at every cursor what it returns at the start,
    reads nothing and only prints. *)
Lemma extract_task_details_run env text cursor :
  ∃ details l,
    extract_task_details env text cursor = (Return details, cursor, l) ∧
    run_result (extract_task_details env text) = Return details ∧
    run_log (extract_task_details env text) = l ∧
    Forall quiet l.
Proof.
  unfold run_result, run_log. rewrite !extract_task_details_unfold.
  destruct (Re.search meeting_pattern text) as [task|]; cbv zeta.
  - destruct (dateparser_parse env _); eexists _, _;
      (split_and!; [reflexivity..|]); repeat constructor.
  - eexists _, _. split_and!; [reflexivity..|]. repeat constructor.
Qed.

(** C4, as the specification has it, fails: the mapping does not hold the
    counterpart that the pattern captures, but that text trimmed.  In
    [with  Alice  at] the search captures the counterpart [ Alice ], with a
    space on either side, and the extractor stores [with_whom] = [Alice]
    and [task] = [Meeting with Alice]. *)
Lemma untrimmed_counterpart_counterexample :
  Re.search meeting_pattern "Schedule a meeting with  Alice  at 3pm tomorrow."
  = Some [" Alice "; "3pm tomorrow"] ∧
  meeting_request "Schedule a meeting with  Alice  at 3pm tomorrow."
    " Alice " "3pm tomorrow" ∧
  dateparser_parse Sample.env "3pm tomorrow" = Parsed Sample.start_time ∧
  run_result (extract_task_details Sample.env
                "Schedule a meeting with  Alice  at 3pm tomorrow.")
  = Return (<["task" := "Meeting with Alice"]>
              (<["with_whom" := "Alice"]>
                 (<["date_time" := "2024-12-08T15:00:00-05:00"]> ∅))) ∧
  run_result (extract_task_details Sample.env
                "Schedule a meeting with  Alice  at 3pm tomorrow.")
  ≠ Return (<["task" := "Meeting with  Alice "]>
              (<["with_whom" := " Alice "]>
                 (<["date_time" := "2024-12-08T15:00:00-05:00"]> ∅))).
Proof.
  assert (Hs : Re.search meeting_pattern
                 "Schedule a meeting with  Alice  at 3pm tomorrow."
               = Some [" Alice "; "3pm tomorrow"]) by (vm_compute; reflexivity).
  split_and!.
  - exact Hs.
  - destruct (search_meeting_request _ _ Hs) as (g1 & g2 & Heq & Hreq).
    by injection Heq as <- <-.
  - vm_compute. reflexivity.
  - vm_compute. reflexivity.
  - intros H.
    apply (f_equal (λ o, match o with
                         | Return d => d !! "with_whom"
                         | _ => None
                         end)) in H.
    vm_compute in H. discriminate.
Qed.

(** C4, amended. When the text holds a meeting request, the search
    captures a counterpart and a time expression of such a request; the
    extractor then returns the three fields [task], [with_whom] and
    [date_time], built from the counterpart trimmed of the whitespace
    around it and the ISO form of the parsed time, when the trimmed time
    expression parses, and the empty mapping when it does not.  When the
    text holds no meeting request the extractor returns the empty mapping. *)
Theorem extraction_of_a_meeting_request env text :
  (pattern_matches text →
   ∃ counterpart time_expr,
     Re.search meeting_pattern text = Some [counterpart; time_expr] ∧
     meeting_request text counterpart time_expr ∧
     match dateparser_parse env (Text.strip time_expr) with
     | Parsed t =>
       run_result (extract_task_details env text)
       = Return (<["task" := "Meeting with " +:+ Text.strip counterpart]>
                   (<["with_whom" := Text.strip counterpart]>
                      (<["date_time" := isoformat env t]> ∅)))
     | NotParsed | ParseRaised _ =>
       run_result (extract_task_details env text) = Return ∅
     end) ∧
  (¬ pattern_matches text →
   run_result (extract_task_details env text) = Return ∅).
Proof.
  unfold run_result. rewrite extract_task_details_unfold. split.
  - intros [caps Hs]%pattern_matches_search.
    destruct (search_meeting_request _ _ Hs) as (g1 & g2 & -> & Hreq).
    exists g1, g2. rewrite Hs. cbv zeta.
    change (Re.group 1 [g1; g2]) with g1. change (Re.group 2 [g1; g2]) with g2.
    split_and!; [done..|]. by destruct (dateparser_parse env _).
  - intros Hno. destruct (Re.search meeting_pattern text) as [task|] eqn:Hs; [|done].
    destruct Hno. apply pattern_matches_search. by rewrite Hs.
Qed.

Lemma extraction_of_a_meeting_request_witness :
  run_result (extract_task_details Sample.env
                "Schedule a meeting with Alice at 3pm tomorrow.")
  = Return (<["task" := "Meeting with Alice"]>
              (<["with_whom" := "Alice"]>
                 (<["date_time" := "2024-12-08T15:00:00-05:00"]> ∅))) ∧
  run_result (extract_task_details Sample.env "Remind me to buy milk") = Return ∅.
Proof.
  split.
  - destruct (extraction_of_a_meeting_request Sample.env
                "Schedule a meeting with Alice at 3pm tomorrow.") as [Hyes _].
    destruct Hyes as (counterpart & time_expr & Hs & _ & Hres).
    { apply pattern_matches_search. vm_compute. eauto. }
    assert (counterpart = "Alice" ∧ time_expr = "3pm tomorrow") as [-> ->].
    { vm_compute in Hs. by injection Hs as -> ->. }
    exact Hres.
  - destruct (extraction_of_a_meeting_request Sample.env "Remind me to buy milk")
      as [_ Hno].
    apply Hno. intros [caps Hs]%pattern_matches_search. vm_compute in Hs. discriminate.
Defined.

(** The extractor returns the empty mapping exactly when the text holds
    no meeting request or the captured time expression does not parse. *)
Lemma extraction_empty_iff env text :
  run_result (extract_task_details env text) = Return ∅ ↔
  Re.search meeting_pattern text = None ∨
  ∃ task, Re.search meeting_pattern text = Some task ∧
          ∀ t, dateparser_parse env (Text.strip (Re.group 2 task)) ≠ Parsed t.
Proof.
  unfold run_result. rewrite extract_task_details_unfold.
  destruct (Re.search meeting_pattern text) as [task|]; cbv zeta.
  - destruct (dateparser_parse env _) as [t| |msg] eqn:Hp; cbn; split.
    + intros H.
      apply (f_equal (λ o, match o with Return d => d | _ => ∅ end)) in H.
      cbn in H. by apply insert_non_empty in H.
    + intros [?|(task' & [= <-] & H)]; [done|]. by destruct (H t).
    + intros _. right. exists task. split; [done|]. intros t. congruence.
    + done.
    + intros _. right. exists task. split; [done|]. intros t. congruence.
    + done.
  - split; [by left|done].
Qed.

(** ** The pipeline driver *)

(** C8. When the transcription succeeds and the extractor returns the
    empty mapping, [main] returns at once: its log ends with the report of
    the failed extraction, and holds nothing but printing and the call of
    the transcription service; no prompt is shown and no event is handed
    to the calendar. *)
Theorem empty_extraction_halts env fuel path text :
  transcriber_transcribe env path = TranscriptCompleted text →
  run_result (extract_task_details env text) = Return ∅ →
  run_result (main env fuel path) = Return () ∧
  last (run_log (main env fuel path)) = Some (EPrint "Failed to extract task details.") ∧
  Forall quiet (run_log (main env fuel path)) ∧
  prompts (run_log (main env fuel path)) = [] ∧
  inserted (run_log (main env fuel path)) = [].
Proof.
  intros Htr Hex.
  destruct (extract_task_details_run env text 0%nat) as (details & l & Hrun & Hres & _ & Hq).
  assert (details = ∅) as -> by congruence.
  assert (main env fuel path 0%nat
          = (Return (), 0%nat,
             [EPrint "Transcribing audio..."; ETranscribe path;
              EPrint (Text.NL +:+ "Transcript:" +:+ Text.NL +:+ text)]
             ++ l ++ [EPrint "Failed to extract task details."])) as Hmain.
  { unfold main, transcribe_audio. rewrite Htr. run_monad. rewrite Hrun. by run_monad. }
  unfold run_result, run_log. rewrite Hmain. cbn [fst snd].
  assert (Hall : Forall quiet
            ([EPrint "Transcribing audio..."; ETranscribe path;
              EPrint (Text.NL +:+ "Transcript:" +:+ Text.NL +:+ text)]
             ++ l ++ [EPrint "Failed to extract task details."])).
  { repeat (apply Forall_app; split); [repeat constructor|done|repeat constructor]. }
  split_and!; [done| |done| |].
  - rewrite (assoc_L (++)). apply last_snoc.
  - clear Hmain. induction Hall as [|[] ? Hx _ IH]; cbn in *; done.
  - clear Hmain. induction Hall as [|[] ? Hx _ IH]; cbn in *; done.
Qed.

Lemma empty_extraction_halts_witness :
  let env := Sample.env_with "Remind me to buy milk" [] Sample.service in
  run_result (main env 1 "audio.wav") = Return () ∧
  last (run_log (main env 1 "audio.wav")) = Some (EPrint "Failed to extract task details.") ∧
  Forall quiet (run_log (main env 1 "audio.wav")) ∧
  prompts (run_log (main env 1 "audio.wav")) = [] ∧
  inserted (run_log (main env 1 "audio.wav")) = [].
Proof.
  apply (empty_extraction_halts
           (Sample.env_with "Remind me to buy milk" [] Sample.service) 1 "audio.wav"
           "Remind me to buy milk").
  - reflexivity.
  - vm_compute. reflexivity.
Defined.

Lemma print_items_run events cursor :
  ∃ l, print_items events cursor = (Return (), cursor, l).
Proof.
  induction events as [|event events [l IH]]; [by eexists|].
  cbn [print_items]. unfold print_item. run_monad. rewrite IH. by eexists.
Qed.

Local Arguments print_items : simpl never.

(** The listing always returns, and begins with its heading and the
    request to the calendar. *)
Lemma display_upcoming_events_run env service max_results cursor :
  ∃ l, display_upcoming_events env service max_results cursor
       = (Return (), cursor,
          EPrint (Text.NL +:+ "Your Upcoming Events:")
          :: EList (isoformat env (utc_now env)) max_results :: l).
Proof.
  unfold display_upcoming_events. run_monad.
  destruct (events_list service _ _) as [msg|[|event events]]; run_monad;
    [by eexists..|].
  destruct (print_items_run (event :: events) cursor) as [l ->]. by eexists.
Qed.

(** A failure of the Building or Submitting step is caught and reported:
    the last line that [create_calendar_event] prints is the error. *)
Lemma build_or_submit_failure_reported env service task_details cursor :
  build_or_submit_fails env service task_details →
  ∃ e, last (create_calendar_event env service task_details cursor).2
       = Some (EPrint ("Error adding event to calendar: " +:+ e)).
Proof.
  intros (s & Hdt & Hne & Hfail). rewrite create_calendar_event_unfold, Hdt.
  destruct s as [|a s]; [done|]. cbn [snd].
  destruct (dateparser_parse env (String a s)) as [start_time| |msg]; [|by eexists..].
  destruct (datetime_add start_time (timedelta_hours 1)) as [msg|end_time];
    [by eexists|].
  destruct Hfail as [msg ->]. by eexists.
Qed.

(** C2, as the specification has it, fails: the calendar refuses the event,
    the error is reported, and the listing of upcoming events is requested
    all the same. *)
Lemma listing_skipped_counterexample :
  run_result (main Sample.refused_env 1 "audio.wav") = Return () ∧
  inserted (run_log (main Sample.refused_env 1 "audio.wav")) ≠ [] ∧
  ∃ before,
    run_log (main Sample.refused_env 1 "audio.wav")
    = before ++
      [EPrint "Error adding event to calendar: HttpError 403: quota exceeded";
       EPrint (Text.NL +:+ "Your Upcoming Events:");
       EList "2024-12-08T20:30:00+00:00" 10;
       EPrint "No upcoming events found."].
Proof.
  split_and!.
  - vm_compute. reflexivity.
  - vm_compute. discriminate.
  - exists (take 18 (run_log (main Sample.refused_env 1 "audio.wav"))).
    vm_compute. reflexivity.
Qed.

(** C2, amended. When the run reaches the Building step and that step or
    the Submitting step fails, the failure is caught and reported by
    [create_calendar_event], and the run goes on: the listing of upcoming
    events is requested next, and [main] returns normally. *)
Theorem listing_follows_a_failed_build env fuel path text
    (extracted task_details : gmap string string) cursor asked service :
  transcriber_transcribe env path = TranscriptCompleted text →
  run_result (extract_task_details env text) = Return extracted →
  extracted ≠ ∅ →
  ask_follow_up_questions env fuel extracted 0%nat = (Return task_details, cursor, asked) →
  google_service env = inr service →
  build_or_submit_fails env service task_details →
  ∃ before failure listing e,
    run_result (main env fuel path) = Return () ∧
    run_log (main env fuel path) = before ++ failure ++ listing ∧
    failure = (create_calendar_event env service task_details cursor).2 ∧
    last failure = Some (EPrint ("Error adding event to calendar: " +:+ e)) ∧
    listing = (display_upcoming_events env service 10 cursor).2 ∧
    listing !! 1%nat = Some (EList (isoformat env (utc_now env)) 10).
Proof.
  intros Htr Hex Hne Hask Hsvc Hfail.
  destruct (extract_task_details_run env text 0%nat) as (details & l & Hrun & Hres & _ & _).
  assert (details = extracted) as -> by congruence.
  destruct (build_or_submit_failure_reported _ _ _ cursor Hfail) as [e He].
  destruct (display_upcoming_events_run env service 10 cursor) as [shown Hshow].
  pose proof (create_calendar_event_unfold env service task_details cursor) as Hcreate.
  set (failure := (create_calendar_event env service task_details cursor).2) in *.
  assert (create_calendar_event env service task_details cursor
          = (Return (), cursor, failure)) as Hcreate'.
  { unfold failure. by rewrite Hcreate. }
  assert (main env fuel path 0%nat
          = (Return (), cursor,
             ([EPrint "Transcribing audio..."; ETranscribe path;
               EPrint (Text.NL +:+ "Transcript:" +:+ Text.NL +:+ text)]
              ++ l
              ++ [EPrint (Text.NL +:+ "Extracted Task Details:");
                  EPrint (json_dumps env extracted)]
              ++ asked
              ++ [EPrint (Text.NL +:+ "Final Task Details:");
                  EPrint (json_dumps env task_details); EAuthenticate])
             ++ failure
             ++ (display_upcoming_events env service 10 cursor).2)) as Hmain.
  { unfold main, transcribe_audio. rewrite Htr. run_monad. rewrite Hrun.
    rewrite (bool_decide_eq_false_2 _ Hne). run_monad. rewrite Hask. run_monad.
    unfold authenticate_google_calendar. rewrite Hsvc. run_monad.
    rewrite Hcreate', Hshow. cbn.
    f_equal. rewrite <- !(assoc_L (++)). cbn. f_equal.
    by rewrite <- !(assoc_L (++)). }
  eexists _, failure, _, e. unfold run_result, run_log. rewrite Hmain.
  split_and!; [done|reflexivity|done|done|done|by rewrite Hshow].
Qed.

Lemma listing_follows_a_failed_build_witness :
  ∃ before failure listing e,
    run_result (main Sample.refused_env 1 "audio.wav") = Return () ∧
    run_log (main Sample.refused_env 1 "audio.wav") = before ++ failure ++ listing ∧
    failure = (create_calendar_event Sample.refused_env Sample.refusing_service
                 Sample.extracted 7%nat).2 ∧
    last failure = Some (EPrint ("Error adding event to calendar: " +:+ e)) ∧
    listing = (display_upcoming_events Sample.refused_env Sample.refusing_service
                 10 7%nat).2 ∧
    listing !! 1%nat
    = Some (EList (isoformat Sample.refused_env (utc_now Sample.refused_env)) 10).
Proof.
  apply (listing_follows_a_failed_build Sample.refused_env 1 "audio.wav"
           "Schedule a meeting with Alice at 3pm tomorrow."
           Sample.extracted Sample.extracted 7%nat
           (run_log (ask_follow_up_questions Sample.refused_env 1 Sample.extracted))
           Sample.refusing_service).
  - reflexivity.
  - vm_compute. reflexivity.
  - apply insert_non_empty.
  - vm_compute. reflexivity.
  - reflexivity.
  - exists "2024-12-08T15:00:00-05:00". split; [vm_compute; reflexivity|].
    split; [discriminate|]. vm_compute. eauto.
Defined.

(** ** The interactive completer *)


Lemma blank_at_Some lines i :
  blank_at lines i = true →
  ∃ line, lines i = Some line ∧ Text.truthy (Text.strip line) = false.
Proof.
  unfold blank_at, answered. destruct (lines i) as [line|]; [|done].
  cbn. rewrite negb_true_iff. eauto.
Qed.

Ltac read_input := unfold input; run_monad.

Section Completer.

Context (env : Env).

Implicit Types (task_details details : gmap string string) (item : string * field_spec).

(** *** What a returning run guarantees *)

Lemma ask_again_Return fuel d cursor response cursor' l :
  ask_again env fuel d cursor = (Return response, cursor', l) → response ≠ "".
Proof.
  revert cursor cursor' l.
  induction fuel as [|fuel IH]; intros cursor cursor' l; [done|].
  cbn [ask_again]. read_input.
  destruct (stdin env cursor) as [line|]; run_monad; [|done].
  destruct (Text.truthy (Text.strip line)) eqn:Ht; run_monad.
  - intros [= <- _ _]. by apply TextFacts.truthy_true.
  - destruct (ask_again env fuel d (S cursor)) as [[[r| |] c2] l2] eqn:Hr;
      intros [= <- _ _]. eauto.
Qed.

(** One field: values that are there and not empty stay, no key goes
    away, and a mandatory field is filled afterwards. *)
Lemma ask_field_Return fuel task_details item cursor details cursor' l :
  ask_field env fuel task_details item cursor = (Return details, cursor', l) →
  (∀ key value, task_details !! key = Some value → value ≠ "" →
                details !! key = Some value) ∧
  (∀ key, is_Some (task_details !! key) → is_Some (details !! key)) ∧
  (mandatory item.2 = true → filled details item.1 = true).
Proof.
  destruct item as [field d]. unfold ask_field.
  destruct (filled task_details field) eqn:Hf.
  { intros [= <- _ _]. by split_and!. }
  assert (Hins : ∀ response, response ≠ "" →
    (∀ key value, task_details !! key = Some value → value ≠ "" →
                  <[field := response]> task_details !! key = Some value) ∧
    (∀ key, is_Some (task_details !! key) →
            is_Some (<[field := response]> task_details !! key)) ∧
    (mandatory d = true → filled (<[field := response]> task_details) field = true)).
  { intros response Hr. split_and!.
    - intros key value Hk Hv. destruct (decide (field = key)) as [<-|Hne].
      + unfold filled in Hf. rewrite Hk in Hf.
        apply TextFacts.truthy_false in Hf. done.
      + by rewrite lookup_insert_ne.
    - intros key Hk. destruct (decide (field = key)) as [<-|Hne].
      + rewrite lookup_insert_eq. eauto.
      + by rewrite lookup_insert_ne.
    - intros _. unfold filled. rewrite lookup_insert_eq.
      by apply TextFacts.truthy_true. }
  read_input. destruct (stdin env cursor) as [line|]; run_monad; [|done].
  destruct (Text.truthy (Text.strip line)) eqn:Ht; run_monad.
  { intros [= <- _ _]. apply Hins. by apply TextFacts.truthy_true. }
  destruct (mandatory d) eqn:Hm; run_monad.
  - destruct (ask_again env fuel d (S cursor)) as [[[r| |] c2] l2] eqn:Hr;
      intros [= <- _ _].
    apply Hins. by eapply ask_again_Return.
  - intros [= <- _ _]. by split_and!.
Qed.

Lemma filled_true task_details field :
  filled task_details field = true ↔
  ∃ value, task_details !! field = Some value ∧ value ≠ "".
Proof.
  unfold filled. destruct (task_details !! field) as [v|].
  - rewrite TextFacts.truthy_true. split; [eauto|]. by intros (? & [= <-] & ?).
  - split; [done|]. by intros (? & ? & ?).
Qed.

Lemma ask_fields_cons fuel item fields task_details cursor :
  ask_fields env fuel (item :: fields) task_details cursor
  = match ask_field env fuel task_details item cursor with
    | (Return d1, c1, l1) =>
      let '(r, c2, l2) := ask_fields env fuel fields d1 c1 in (r, c2, l1 ++ l2)
    | (Raise e, c1, l1) => (Raise e, c1, l1)
    | (Timeout, c1, l1) => (Timeout, c1, l1)
    end.
Proof. reflexivity. Qed.

Lemma ask_follow_up_questions_unfold fuel task_details cursor :
  ask_follow_up_questions env fuel task_details cursor
  = let '(r, cursor', l) := ask_fields env fuel required_fields task_details cursor in
    (r, cursor',
     EPrint (Text.NL +:+ "To create a detailed calendar event, please provide additional information where needed."
             +:+ Text.NL) :: l).
Proof. reflexivity. Qed.

Lemma ask_fields_Return fuel fields : ∀ task_details cursor details cursor' l,
  ask_fields env fuel fields task_details cursor = (Return details, cursor', l) →
  (∀ key value, task_details !! key = Some value → value ≠ "" →
                details !! key = Some value) ∧
  (∀ key, is_Some (task_details !! key) → is_Some (details !! key)) ∧
  (∀ item, item ∈ fields → mandatory item.2 = true → filled details item.1 = true).
Proof.
  induction fields as [|item fields IH]; intros task_details cursor details cursor' l.
  { intros [= <- _ _]. split_and!; [done..|]. by intros ? ?%elem_of_nil. }
  rewrite ask_fields_cons.
  destruct (ask_field env fuel task_details item cursor) as [[[d1| |] c1] l1] eqn:H1;
    [|done..].
  destruct (ask_fields env fuel fields d1 c1) as [[r2 c2] l2] eqn:H2.
  intros [= -> _ _].
  apply ask_field_Return in H1 as (Hkeep1 & Hkeys1 & Hm1).
  apply IH in H2 as (Hkeep2 & Hkeys2 & Hm2).
  split_and!.
  - intros key value Hk Hv. eauto.
  - intros key Hk. eauto.
  - intros item' [->|Hin]%elem_of_cons Hmand; [|by eauto].
    apply filled_true in Hm1 as (v & Hv & Hne); [|done].
    apply filled_true. eauto.
Qed.

(** *** When a run returns *)


Lemma answered_between_S lines cursor n :
  answered_between lines cursor (S n)
  = ((if answered_at lines cursor then 1 else 0)
     + answered_between lines (S cursor) n)%nat.
Proof.
  unfold answered_between. cbn [seq]. rewrite filter_cons.
  destruct (answered_at lines cursor); by case_decide.
Qed.




Lemma filter_agree {A : Type} (P Q : A → Prop) `{!∀ x, Decision (P x)}
    `{!∀ x, Decision (Q x)} (l : list A) :
  Forall (λ x, P x ↔ Q x) l → filter P l = filter Q l.
Proof.
  induction 1 as [|x l Hx _ IH]; [done|].
  rewrite !filter_cons, IH.
  destruct (decide (P x)), (decide (Q x)); try done; exfalso; tauto.
Qed.

(** A form on which no mandatory field is left to ask: one line is read
    per unfilled field, each field is asked once, in order, and the loop
    is never entered, so that no fuel is needed.  The lines that are read
    must have been typed. *)
Lemma ask_fields_without_loop fuel fields : ∀ task_details cursor,
  NoDup fields.*1 →
  (∀ item, item ∈ fields → mandatory item.2 = true →
           filled task_details item.1 = true) →
  typed_between (stdin env) cursor (length (unfilled task_details fields)) →
  ∃ details asked,
    ask_fields env fuel fields task_details cursor
    = (Return details, (cursor + length (unfilled task_details fields))%nat, asked) ∧
    asked = EInput <$> (first_prompt <$> unfilled task_details fields) ∧
    (∀ other, other ∉ fields.*1 → details !! other = task_details !! other).
Proof.
  induction fields as [|[field d] fields IH]; intros task_details cursor Hnd Hmand Htyped.
  { exists task_details, []. cbn. by rewrite Nat.add_0_r. }
  apply NoDup_cons in Hnd as [Hnotin Hnd]. cbn [fmap list_fmap fst] in Hnotin.
  rewrite ask_fields_cons. unfold unfilled in *. rewrite filter_cons in *. cbn [fst] in *.
  unfold ask_field.
  destruct (filled task_details field) eqn:Hf.
  - unfold mret, M_ret. cbv beta iota.
    case_decide; [done|].
    destruct (IH task_details cursor Hnd) as (details & asked & -> & -> & Hsame).
    { intros item Hin. apply Hmand. by right. }
    { done. }
    eexists _, _. split_and!; [done..|].
    intros other Hother. apply Hsame. intros Hin. apply Hother. by right.
  - assert (mandatory d = false) as Hd.
    { destruct (mandatory d) eqn:Hd; [|done].
      specialize (Hmand (field, d) ltac:(left) Hd). cbn in Hmand. congruence. }
    case_decide; [|done]. cbn [length] in Htyped.
    assert (Hsame : ∀ response,
      Forall (λ item, filled (<[field := response]> task_details) item.1 = false
                      ↔ filled task_details item.1 = false) fields).
    { intros response. apply Forall_forall. intros [g dg] Hin. cbn.
      unfold filled. rewrite lookup_insert_ne; [done|].
      intros ->. apply Hnotin. apply list_elem_of_fmap. by exists (g, dg). }
    destruct (Htyped cursor ltac:(lia)) as [line Hline].
    read_input. rewrite Hline. run_monad.
    destruct (Text.truthy (Text.strip line)) eqn:Ht; run_monad.
    + destruct (IH (<[field := Text.strip line]> task_details) (S cursor) Hnd)
        as (details & asked & -> & -> & Hkeep).
      { intros [g dg] Hin Hg. cbn. unfold filled.
        rewrite lookup_insert_ne.
        - by apply (Hmand (g, dg)); [right|].
        - intros ->. apply Hnotin. apply list_elem_of_fmap. by exists (g, dg). }
      { rewrite (filter_agree _ _ _ (Hsame _)). intros i Hi. apply Htyped. lia. }
      rewrite (filter_agree _ _ _ (Hsame _)).
      eexists _, _. split_and!; [|reflexivity|].
      * apply (f_equal2 pair); [apply (f_equal2 pair); [reflexivity|lia]|reflexivity].
      * intros other Hother. rewrite Hkeep.
        -- rewrite lookup_insert_ne; [done|]. intros ->. apply Hother. by left.
        -- intros Hin. apply Hother. by right.
    + rewrite Hd. run_monad.
      destruct (IH task_details (S cursor) Hnd) as (details & asked & -> & -> & Hkeep).
      { intros item Hin. apply Hmand. by right. }
      { intros i Hi. apply Htyped. lia. }
      eexists _, _. split_and!; [|reflexivity|].
      * apply (f_equal2 pair); [apply (f_equal2 pair); [reflexivity|lia]|reflexivity].
      * intros other Hother. apply Hkeep. intros Hin. apply Hother. by right.
Qed.

Lemma required_fields_NoDup : NoDup required_fields.*1.
Proof. apply (bool_decide_unpack _). vm_compute. exact I. Qed.

Lemma length_filter_fmap {A B : Type} (f : A → B) (P : A → Prop) (Q : B → Prop)
    `{!∀ x, Decision (P x)} `{!∀ y, Decision (Q y)} (l : list A) :
  (∀ x, P x ↔ Q (f x)) →
  length (filter P l) = length (filter Q (f <$> l)).
Proof.
  intros HPQ. induction l as [|x l IH]; [done|].
  rewrite fmap_cons, !filter_cons.
  destruct (decide (P x)) as [HP|HP], (decide (Q (f x))) as [HQ|HQ]; cbn;
    rewrite ?IH; try done; exfalso; by apply HPQ in HP || apply HPQ in HQ.
Qed.

Lemma missing_mandatory_count task_details :
  missing_mandatory task_details
  = ((if filled task_details "task" then 0 else 1)
     + (if filled task_details "date_time" then 0 else 1))%nat.
Proof.
  unfold missing_mandatory.
  rewrite (length_filter_fmap (λ item : string * field_spec, (item.1, mandatory item.2))
             _ (λ p : string * bool, p.2 = true ∧ filled task_details p.1 = false))
    by done.
  replace ((λ item : string * field_spec, (item.1, mandatory item.2)) <$> required_fields)
    with [("task", true); ("date_time", true); ("location", false);
          ("description", false); ("participants", false); ("attachments", false);
          ("recurrence", false); ("notes", false); ("rsvp", false)]
    by (vm_compute; reflexivity).
  assert (Hcons : ∀ (field : string) (m : bool) (l : list (string * bool)),
    length (filter (λ p : string * bool, p.2 = true ∧ filled task_details p.1 = false)
              ((field, m) :: l))
    = ((if m then if filled task_details field then 0 else 1 else 0)
       + length (filter (λ p : string * bool,
                           p.2 = true ∧ filled task_details p.1 = false) l))%nat).
  { intros field m l. rewrite filter_cons. cbn [fst snd].
    destruct m, (filled task_details field); case_decide; cbn;
      try reflexivity; exfalso; intuition congruence. }
  rewrite !Hcons, filter_nil.
  destruct (filled task_details "task"), (filled task_details "date_time");
    reflexivity.
Qed.



End Completer.



(** The sample dialogue: the title is asked three times, the time twice,
    and each optional field once; the twelve lines typed are all read. *)
Example sample_dialogue :
  match ask_follow_up_questions SampleDialogue.env 5 SampleDialogue.partial 0%nat with
  | (Return details, cursor, asked) =>
    (details !! "task", details !! "with_whom", details !! "date_time",
     details !! "location", details !! "description", details !! "participants",
     cursor, length (prompts asked))
    = (Some "Team sync", Some "Alice", Some "tomorrow 5pm",
       Some "Room 4", None, Some "a@x.com,bob", 12%nat, 12%nat)
  | _ => False
  end.
Proof. vm_compute. reflexivity. Qed.

(** * Further properties of the module

    ** The transcription step *)

(** [transcribe_audio] never raises: it announces itself, calls the
    service once, and returns the text exactly when the service completed;
    an error status and an exception are each reported in one line and
    give [None]. *)
Theorem transcribe_audio_never_raises env path cursor :
  ∃ result l,
    transcribe_audio env path cursor
    = (Return result, cursor, [EPrint "Transcribing audio..."; ETranscribe path] ++ l) ∧
    (∀ text, result = Some text ↔
             transcriber_transcribe env path = TranscriptCompleted text) ∧
    l = match transcriber_transcribe env path with
        | TranscribeRaised msg => [EPrint ("Transcription error: " +:+ msg)]
        | TranscriptError error => [EPrint ("Transcription failed: " +:+ error)]
        | TranscriptCompleted _ => []
        end.
Proof.
  unfold transcribe_audio.
  destruct (transcriber_transcribe env path) as [msg|error|text];
    run_monad; eexists _, _; (split_and!; [reflexivity| |reflexivity]);
    intros text'; split; congruence.
Qed.

(** ** The time normalizer *)

(** [parse_time] returns exactly when the parser yields a time, and then
    prints nothing; otherwise it prints one line and raises the very
    message it printed, the fixed one when the parser gave [None]. *)
Theorem parse_time_reports_what_it_raises env time_str cursor :
  ∃ r l,
    parse_time env time_str cursor = (r, cursor, l) ∧
    (∀ dt, r = Return dt ↔ dateparser_parse env time_str = Parsed dt) ∧
    (∀ dt, r = Return dt → l = []) ∧
    (∀ e, r = Raise e → l = [EPrint ("Time parsing error: " +:+ e)]) ∧
    (dateparser_parse env time_str = NotParsed →
     r = Raise "Unable to parse the provided date and time.") ∧
    r ≠ Timeout.
Proof.
  unfold parse_time, dateparser_call.
  destruct (dateparser_parse env time_str) as [dt| |msg]; run_monad;
    eexists _, _; (split; [reflexivity|]);
    split_and!; try done; try (intros ? [= <-]; reflexivity);
    intros dt'; split; congruence.
Qed.

(** ** The event builder, beyond the claims *)

(** [create_calendar_event] never raises and reads nothing; it hands at
    most one event to the calendar, and its last line tells what the
    calendar answered: the success line with the link when the event was
    accepted, the error line when it was refused. *)
Theorem create_calendar_event_never_raises env service
    (task_details : gmap string string) cursor :
  ∃ l,
    create_calendar_event env service task_details cursor = (Return (), cursor, l) ∧
    (length (inserted l) ≤ 1)%nat ∧
    prompts l = [] ∧
    ∀ event, event ∈ inserted l →
      match events_insert service event with
      | inr created =>
        last l = Some (EPrint (Text.NL +:+ "Event created successfully: "
                               +:+ str_opt created))
      | inl msg => last l = Some (EPrint ("Error adding event to calendar: " +:+ msg))
      end.
Proof.
  rewrite create_calendar_event_unfold. eexists. split; [reflexivity|].
  destruct (task_details !! "date_time") as [[|a s]|];
    [cbn; split_and!; [lia|done|by intros ? ?%elem_of_nil]|
    |cbn; split_and!; [lia|done|by intros ? ?%elem_of_nil]].
  destruct (dateparser_parse env (String a s)) as [start_time| |msg];
    [|cbn; split_and!; [lia|done|by intros ? ?%elem_of_nil]..].
  destruct (datetime_add start_time (timedelta_hours 1)) as [msg|end_time];
    [cbn; split_and!; [lia|done|by intros ? ?%elem_of_nil]|].
  cbv zeta.
  destruct (events_insert service _) as [msg|created] eqn:Hins; cbn;
    (split_and!; [lia|done|]);
    intros event ->%list_elem_of_singleton; by rewrite Hins.
Qed.

(** A [date_time] that is there but does not parse: the failure is
    printed twice, once by [parse_time] and once by the builder, and
    nothing is handed to the calendar. *)
Theorem unparsable_date_time_inserts_nothing env service
    (task_details : gmap string string) s cursor :
  task_details !! "date_time" = Some s →
  s ≠ "" →
  (∀ dt, dateparser_parse env s ≠ Parsed dt) →
  ∃ e,
    create_calendar_event env service task_details cursor
    = (Return (), cursor,
       [EPrint ("Time parsing error: " +:+ e);
        EPrint ("Error adding event to calendar: " +:+ e)]) ∧
    (dateparser_parse env s = NotParsed →
     e = "Unable to parse the provided date and time.").
Proof.
  intros Hdt Hne Hparse. rewrite create_calendar_event_unfold, Hdt.
  destruct s as [|a s]; [done|].
  destruct (dateparser_parse env (String a s)) as [dt| |msg] eqn:Hp.
  - by destruct (Hparse dt).
  - by eexists.
  - eexists. split; [reflexivity|done].
Qed.

Lemma unparsable_date_time_inserts_nothing_witness :
  ∃ e,
    create_calendar_event Sample.env Sample.service Edge.unreadable 0%nat
    = (Return (), 0%nat,
       [EPrint ("Time parsing error: " +:+ e);
        EPrint ("Error adding event to calendar: " +:+ e)]) ∧
    (dateparser_parse Sample.env "next blursday" = NotParsed →
     e = "Unable to parse the provided date and time.").
Proof.
  apply (unparsable_date_time_inserts_nothing Sample.env Sample.service
           Edge.unreadable "next blursday" 0%nat).
  - vm_compute. reflexivity.
  - discriminate.
  - intros dt. vm_compute. discriminate.
Defined.

(** A start in the last hour of the year 9999: the end time is no
    [datetime], the addition raises, and the builder reports
    ["date value out of range"] without handing anything to the
    calendar. *)
Theorem start_in_the_last_hour_inserts_nothing env service
    (task_details : gmap string string) s start_time cursor :
  task_details !! "date_time" = Some s →
  s ≠ "" →
  dateparser_parse env s = Parsed start_time →
  wall_max ≤ wall start_time + 3600 * 1000000 →
  create_calendar_event env service task_details cursor
  = (Return (), cursor,
     [EPrint "Error adding event to calendar: date value out of range"]).
Proof.
  intros Hdt Hne Hparse Hmax. rewrite create_calendar_event_unfold, Hdt.
  destruct s as [|a s]; [done|]. rewrite Hparse.
  unfold datetime_add, timedelta_hours.
  replace (wall start_time + 1 * 3600 * 1000000 <? wall_max) with false
    by (symmetry; apply Z.ltb_ge; lia).
  by rewrite andb_false_r.
Qed.

Lemma start_in_the_last_hour_inserts_nothing_witness :
  create_calendar_event Edge.late_env Sample.service Sample.details 0%nat
  = (Return (), 0%nat,
     [EPrint "Error adding event to calendar: date value out of range"]).
Proof.
  apply (start_in_the_last_hour_inserts_nothing Edge.late_env Sample.service
           Sample.details "2024-12-08T15:00:00-05:00" Edge.late_start 0%nat).
  - vm_compute. reflexivity.
  - discriminate.
  - reflexivity.
  - vm_compute. discriminate.
Defined.

(** The fields of the built event that come straight from the mapping or
    from the code: the title is the [task] field, with the placeholder
    only when the key is absent (an empty [task] gives an empty title);
    the location is the [location] field or the empty text; the reminders
    are always one e-mail a day before and one popup half an hour before;
    the zone labels are those of the parsed time. *)
Theorem built_event_fixed_fields env service (task_details : gmap string string)
    s start_time end_time :
  task_details !! "date_time" = Some s →
  s ≠ "" →
  dateparser_parse env s = Parsed start_time →
  datetime_add start_time (timedelta_hours 1) = inr end_time →
  ∃ event,
    inserted (run_log (create_calendar_event env service task_details)) = [event] ∧
    summary event = default "No Title Provided" (task_details !! "task") ∧
    location event = default "" (task_details !! "location") ∧
    reminders event
    = {| useDefault := false;
         overrides := [ {| method := "email"; minutes := 1440 |};
                        {| method := "popup"; minutes := 30 |} ] |} ∧
    timeZone (start event) = from_option tz_str "UTC" (dt_tzinfo start_time) ∧
    timeZone (end_ event) = timeZone (start event).
Proof.
  intros Hdt Hne Hparse Hadd. eexists. split.
  - by eapply create_calendar_event_inserts.
  - rewrite build_event_start, build_event_end. cbn [timeZone].
    apply datetime_add_inr in Hadd as (_ & Htz & _).
    unfold zone_label. rewrite Htz.
    unfold build_event, add_rsvp, add_recurrence, add_notes, add_attachments,
      add_participants, initial_event, dict_get.
    split_and!; [repeat (case_match; cbn); reflexivity..| |done].
    by destruct (dt_tzinfo start_time).
Qed.

Lemma built_event_fixed_fields_witness :
  ∃ event,
    inserted (run_log (create_calendar_event Sample.env Sample.service Sample.details))
    = [event] ∧
    summary event = default "No Title Provided" (Sample.details !! "task") ∧
    location event = default "" (Sample.details !! "location") ∧
    reminders event
    = {| useDefault := false;
         overrides := [ {| method := "email"; minutes := 1440 |};
                        {| method := "popup"; minutes := 30 |} ] |} ∧
    timeZone (start event) = from_option tz_str "UTC" (dt_tzinfo Sample.start_time) ∧
    timeZone (end_ event) = timeZone (start event).
Proof.
  apply (built_event_fixed_fields Sample.env Sample.service Sample.details
           "2024-12-08T15:00:00-05:00" Sample.start_time
           {| wall := wall Sample.start_time + timedelta_hours 1;
              dt_tzinfo := Some Sample.zone |}).
  - vm_compute. reflexivity.
  - discriminate.
  - vm_compute. reflexivity.
  - vm_compute. reflexivity.
Defined.

(** ** The listing *)

(** [display_upcoming_events] never raises and reads nothing. It prints
    its heading and asks the calendar once, for [max_results] events from
    now on; then it prints the error when the calendar failed, the notice
    when there is no event, and one line per event otherwise. *)
Theorem display_upcoming_events_never_raises env service max_results cursor :
  ∃ l,
    display_upcoming_events env service max_results cursor
    = (Return (), cursor,
       [EPrint (Text.NL +:+ "Your Upcoming Events:");
        EList (isoformat env (utc_now env)) max_results] ++ l) ∧
    inserted l = [] ∧ prompts l = [] ∧ filter (λ e, is_list e = true) l = [] ∧
    match events_list service (isoformat env (utc_now env)) max_results with
    | inl msg => l = [EPrint ("Error fetching upcoming events: " +:+ msg)]
    | inr [] => l = [EPrint "No upcoming events found."]
    | inr events =>
      l = (λ event,
             EPrint ("- " +:+ default "No Title" (item_summary event) +:+ " at "
                     +:+ str_opt (match item_start_dateTime event with
                                  | Some t => Some t
                                  | None => item_start_date event
                                  end))) <$> events
    end.
Proof.
  assert (Hitems : ∀ events,
    print_items events cursor
    = (Return (), cursor,
       (λ event,
          EPrint ("- " +:+ default "No Title" (item_summary event) +:+ " at "
                  +:+ str_opt (match item_start_dateTime event with
                               | Some t => Some t
                               | None => item_start_date event
                               end))) <$> events)).
  { induction events as [|event events IH]; [reflexivity|].
    unfold print_items; fold print_items. unfold print_item. run_monad.
    by rewrite IH. }
  unfold display_upcoming_events. run_monad.
  destruct (events_list service _ _) as [msg|[|event events]]; run_monad.
  - eexists. split; [reflexivity|]. by split_and!.
  - eexists. split; [reflexivity|]. by split_and!.
  - rewrite Hitems. eexists. split; [reflexivity|].
    split_and!; [| | |reflexivity];
      generalize (event :: events); intros evs;
      induction evs as [|ev evs IH]; done.
Qed.

(** ** The interactive completer, beyond the claims *)

Lemma prompts_EInput (l : list string) : prompts (EInput <$> l) = l.
Proof. induction l as [|x l IH]; [done|]. cbn. by rewrite IH. Qed.

Lemma answered_at_line lines i line :
  lines i = Some line → answered_at lines i = Text.truthy (Text.strip line).
Proof. unfold answered_at, answered. by intros ->. Qed.

(** With a title and a time in the mapping, and a line typed at each
    question that is put, the completer shows the question of every other
    field that is not filled, once each and in the order of the form,
    reads one line per question, and returns; it does so with any fuel,
    for it never asks again. *)
Theorem optional_fields_are_asked_once env fuel (task_details : gmap string string)
    cursor :
  filled task_details "task" = true →
  filled task_details "date_time" = true →
  typed_between (stdin env) cursor (length (unfilled task_details required_fields)) →
  ∃ details asked,
    ask_follow_up_questions env fuel task_details cursor
    = (Return details,
       (cursor + length (unfilled task_details required_fields))%nat, asked) ∧
    prompts asked = first_prompt <$> unfilled task_details required_fields ∧
    (length (unfilled task_details required_fields) ≤ 7)%nat.
Proof.
  intros Htask Hdt Htyped. rewrite ask_follow_up_questions_unfold.
  destruct (ask_fields_without_loop env fuel required_fields task_details cursor
              required_fields_NoDup) as (details & asked & -> & -> & _).
  { intros [field d] Hin Hd. cbn in *.
    unfold required_fields in Hin.
    repeat (apply elem_of_cons in Hin as [[= -> ->]|Hin];
            [first [exact Htask | exact Hdt | (cbn in Hd; discriminate)]|]).
    by apply elem_of_nil in Hin. }
  { done. }
  eexists _, _. split; [reflexivity|]. split.
  - cbn [prompts app]. apply prompts_EInput.
  - unfold unfilled, required_fields. rewrite 2!filter_cons.
    cbn [fst]. rewrite Htask, Hdt.
    case_decide; [done|].
    etrans; [apply length_filter|]. reflexivity.
Qed.

Lemma optional_fields_are_asked_once_witness :
  ∃ details asked,
    ask_follow_up_questions Sample.refused_env 0 Sample.extracted 0%nat
    = (Return details,
       (0 + length (unfilled Sample.extracted required_fields))%nat, asked) ∧
    prompts asked = first_prompt <$> unfilled Sample.extracted required_fields ∧
    (length (unfilled Sample.extracted required_fields) ≤ 7)%nat.
Proof.
  apply (optional_fields_are_asked_once Sample.refused_env 0 Sample.extracted 0%nat).
  - vm_compute. reflexivity.
  - vm_compute. reflexivity.
  - assert (length (unfilled Sample.extracted required_fields) = 7%nat) as ->
      by (vm_compute; reflexivity).
    intros i Hi. apply lookup_lt_is_Some. cbn. lia.
Defined.

Section CompleterLoop.

Context (env : Env).

Implicit Types (task_details details : gmap string string) (item : string * field_spec).

(** The loop on blank lines: it runs out of fuel, whatever the fuel, and
    has asked once per unit of fuel. *)
Lemma ask_again_blank d fuel : ∀ cursor,
  (∀ i, (cursor ≤ i)%nat → blank_at (stdin env) i = true) →
  ∃ l, ask_again env fuel d cursor = (Timeout, (cursor + fuel)%nat, l) ∧
       length (prompts l) = fuel.
Proof.
  induction fuel as [|fuel IH]; intros cursor Hblank.
  { exists []. cbn. by rewrite Nat.add_0_r. }
  cbn [ask_again]. read_input.
  destruct (blank_at_Some _ _ (Hblank cursor ltac:(lia))) as (line & Hline & Ht).
  rewrite Hline. run_monad. rewrite Ht.
  destruct (IH (S cursor)) as (l & -> & Hl).
  { intros i Hi. apply Hblank. lia. }
  eexists. split.
  - apply (f_equal2 pair); [apply (f_equal2 pair); [reflexivity|lia]|reflexivity].
  - cbn. by rewrite Hl.
Qed.

Lemma ask_field_blank fuel task_details field d cursor :
  mandatory d = true →
  filled task_details field = false →
  (∀ i, (cursor ≤ i)%nat → blank_at (stdin env) i = true) →
  ∃ l, ask_field env fuel task_details (field, d) cursor
       = (Timeout, (cursor + S fuel)%nat, l) ∧
       length (prompts l) = S fuel.
Proof.
  intros Hd Hf Hblank. unfold ask_field. rewrite Hf. read_input.
  destruct (blank_at_Some _ _ (Hblank cursor ltac:(lia))) as (line & Hline & Ht).
  rewrite Hline. run_monad. rewrite Ht, Hd. run_monad.
  destruct (ask_again_blank d fuel (S cursor)) as (l & -> & Hl).
  { intros i Hi. apply Hblank. lia. }
  eexists. split.
  - apply (f_equal2 pair); [apply (f_equal2 pair); [reflexivity|lia]|reflexivity].
  - cbn. by rewrite Hl.
Qed.

(** One line answers a field that has no value yet. *)
Lemma ask_again_Return_answer fuel d : ∀ cursor response cursor' l,
  ask_again env fuel d cursor = (Return response, cursor', l) →
  (cursor < cursor')%nat ∧
  (∃ line, stdin env (pred cursor') = Some line ∧ response = Text.strip line) ∧
  answered_at (stdin env) (pred cursor') = true ∧
  (1 ≤ answered_between (stdin env) cursor (cursor' - cursor))%nat.
Proof.
  induction fuel as [|fuel IH]; intros cursor response cursor' l; [done|].
  cbn [ask_again]. read_input.
  destruct (stdin env cursor) as [line|] eqn:Hline; run_monad; [|done].
  destruct (Text.truthy (Text.strip line)) eqn:Ht; run_monad.
  - intros [= <- <- _]. cbn [pred].
    replace (S cursor - cursor)%nat with 1%nat by lia.
    rewrite answered_between_S, (answered_at_line _ _ _ Hline), Ht.
    split_and!; [lia|by eexists|done|lia].
  - destruct (ask_again env fuel d (S cursor)) as [[[r| |] c2] l2] eqn:Hr;
      intros [= <- <- _].
    apply IH in Hr as (Hlt & Hresp & Hans & Hcount).
    split_and!; [lia|done|done|].
    replace (c2 - cursor)%nat with (S (c2 - S cursor)) by lia.
    rewrite answered_between_S. lia.
Qed.

Lemma answered_between_add lines a : ∀ cursor b,
  answered_between lines cursor (a + b)
  = (answered_between lines cursor a + answered_between lines (cursor + a) b)%nat.
Proof.
  induction a as [|a IH]; intros cursor b.
  - cbn. by rewrite Nat.add_0_r.
  - cbn [Nat.add]. rewrite !answered_between_S, IH.
    replace (cursor + S a)%nat with (S cursor + a)%nat by lia. lia.
Qed.

(** What one step of the form does to the cursor and to the mapping. *)
Lemma ask_field_Return_cursor fuel task_details field d cursor details cursor' l :
  ask_field env fuel task_details (field, d) cursor = (Return details, cursor', l) →
  (cursor ≤ cursor')%nat ∧
  (mandatory d = true → filled task_details field = false →
   (1 ≤ answered_between (stdin env) cursor (cursor' - cursor))%nat) ∧
  (details = task_details ∨
   ∃ i line, (cursor ≤ i < cursor')%nat ∧ filled task_details field = false ∧
        stdin env i = Some line ∧ answered line = true ∧
        details = <[field := Text.strip line]> task_details).
Proof.
  unfold ask_field. destruct (filled task_details field) eqn:Hf.
  { intros [= <- <- _]. split_and!; [lia|done|by left]. }
  read_input.
  destruct (stdin env cursor) as [line|] eqn:Hline; run_monad; [|done].
  destruct (Text.truthy (Text.strip line)) eqn:Ht; run_monad.
  { intros [= <- <- _]. split_and!; [lia| |].
    - intros _ _. replace (S cursor - cursor)%nat with 1%nat by lia.
      rewrite answered_between_S, (answered_at_line _ _ _ Hline), Ht. lia.
    - right. exists cursor, line. split_and!; [lia|lia|done|done|done|done]. }
  destruct (mandatory d) eqn:Hm; run_monad.
  - destruct (ask_again env fuel d (S cursor)) as [[[r| |] c2] l2] eqn:Hr;
      intros [= <- <- _].
    apply ask_again_Return_answer in Hr
      as (Hlt & (line' & Hline' & ->) & Hans & Hcount).
    split_and!; [lia| |].
    + intros _ _. replace (c2 - cursor)%nat with (S (c2 - S cursor)) by lia.
      rewrite answered_between_S. lia.
    + right. exists (pred c2), line'. split_and!; [lia|lia|done|done| |done].
      by rewrite (answered_at_line _ _ _ Hline') in Hans.
  - intros [= <- <- _]. split_and!; [lia|done|by left].
Qed.

Lemma ask_fields_Return_cursor fuel fields : ∀ task_details cursor details cursor' l,
  ask_fields env fuel fields task_details cursor = (Return details, cursor', l) →
  (cursor ≤ cursor')%nat ∧
  ∀ key value, details !! key = Some value →
    task_details !! key = Some value ∨
    (key ∈ fields.*1 ∧ value ≠ "" ∧
     ∃ i line, (cursor ≤ i < cursor')%nat ∧ stdin env i = Some line ∧
               value = Text.strip line).
Proof.
  induction fields as [|[field d] fields IH]; intros task_details cursor details cursor' l.
  { intros [= <- <- _]. split; [lia|]. by left. }
  rewrite ask_fields_cons.
  destruct (ask_field env fuel task_details (field, d) cursor)
    as [[[d1| |] c1] l1] eqn:H1; [|done..].
  destruct (ask_fields env fuel fields d1 c1) as [[r2 c2] l2] eqn:H2.
  intros [= -> -> _].
  apply ask_field_Return_cursor in H1 as (Hle1 & _ & Hd1).
  apply IH in H2 as (Hle2 & Hvals).
  split; [lia|]. intros key value Hk.
  destruct (Hvals key value Hk) as [Hin1|(Hin & Hne & i & line & Hi & Hline & Hv)].
  - destruct Hd1 as [->|(i & line & Hi & Hf & Hline & Hans & ->)]; [by left|].
    destruct (decide (field = key)) as [<-|Hne].
    + rewrite lookup_insert_eq in Hin1. injection Hin1 as <-. right.
      split_and!; [by left|by apply TextFacts.truthy_true|].
      exists i, line. split_and!; [lia|lia|done|done].
    + rewrite lookup_insert_ne in Hin1 by done. by left.
  - right. split_and!; [by right|done|]. exists i, line.
    split_and!; [lia|lia|done|done].
Qed.

End CompleterLoop.

(** The form has no way out: when a mandatory field is missing and the
    user only sends blank lines, the completer does not return, whatever
    the fuel, and the number of prompts grows with the fuel. *)
Theorem blank_answers_are_asked_again_forever env (task_details : gmap string string)
    cursor :
  filled task_details "task" = false ∨ filled task_details "date_time" = false →
  (∀ i, (cursor ≤ i)%nat → blank_at (stdin env) i = true) →
  ∀ fuel, ∃ cursor' asked,
    ask_follow_up_questions env fuel task_details cursor = (Timeout, cursor', asked) ∧
    (fuel < length (prompts asked))%nat.
Proof.
  intros Hmiss Hblank fuel. rewrite ask_follow_up_questions_unfold.
  unfold required_fields. rewrite ask_fields_cons.
  destruct (filled task_details "task") eqn:Htask.
  - destruct Hmiss as [?|Hdt]; [done|].
    unfold ask_field at 1. rewrite Htask. unfold mret, M_ret. cbv beta iota.
    rewrite ask_fields_cons.
    match goal with
    | |- context [ask_field env fuel task_details ("date_time", ?d) cursor] =>
        destruct (ask_field_blank env fuel task_details "date_time" d cursor)
          as (l & -> & Hl); [reflexivity|done|done|]
    end.
    eexists _, _. split; [reflexivity|]. cbn [prompts app]. lia.
  - match goal with
    | |- context [ask_field env fuel task_details ("task", ?d) cursor] =>
        destruct (ask_field_blank env fuel task_details "task" d cursor)
          as (l & -> & Hl); [reflexivity|done|done|]
    end.
    eexists _, _. split; [reflexivity|]. cbn [prompts]. lia.
Qed.

Lemma blank_answers_are_asked_again_forever_witness :
  ∃ cursor' asked,
    ask_follow_up_questions Edge.silent_env 3 (<["with_whom" := "Alice"]> ∅) 0%nat
    = (Timeout, cursor', asked) ∧
    (3 < length (prompts asked))%nat.
Proof.
  apply (blank_answers_are_asked_again_forever Edge.silent_env
           (<["with_whom" := "Alice"]> ∅) 0%nat).
  - left. vm_compute. reflexivity.
  - intros i _. reflexivity.
Defined.

(** The completer returns only when the user has typed as many answers
    as mandatory fields were missing: the condition under which it is
    shown to return is the one under which it returns. *)
Theorem completer_returns_only_after_answers env fuel
    (task_details details : gmap string string) cursor cursor' asked :
  ask_follow_up_questions env fuel task_details cursor
  = (Return details, cursor', asked) →
  (cursor ≤ cursor')%nat ∧
  (missing_mandatory task_details
   ≤ answered_between (stdin env) cursor (cursor' - cursor))%nat.
Proof.
  rewrite ask_follow_up_questions_unfold, missing_mandatory_count.
  unfold required_fields. rewrite ask_fields_cons.
  destruct (ask_field env fuel task_details _ cursor) as [[[d1| |] c1] l1] eqn:H1;
    [|done..].
  rewrite ask_fields_cons.
  destruct (ask_field env fuel d1 _ c1) as [[[d2| |] c2] l2] eqn:H2; [|done..].
  match goal with
  | |- context [ask_fields env fuel ?fields d2 c2] =>
      destruct (ask_fields env fuel fields d2 c2) as [[r3 c3] l3] eqn:H3
  end.
  intros [= -> -> _].
  apply ask_field_Return_cursor in H1 as (Hle1 & Hc1 & Hd1).
  apply ask_field_Return_cursor in H2 as (Hle2 & Hc2 & _).
  apply ask_fields_Return_cursor in H3 as (Hle3 & _).
  split; [lia|].
  assert (filled d1 "date_time" = filled task_details "date_time") as Hsame.
  { destruct Hd1 as [->|(i & line & _ & _ & _ & _ & ->)]; [done|].
    unfold filled. by rewrite lookup_insert_ne. }
  rewrite Hsame in Hc2.
  replace (cursor' - cursor)%nat
    with ((c1 - cursor) + ((c2 - c1) + (cursor' - c2)))%nat by lia.
  rewrite !answered_between_add.
  replace (cursor + (c1 - cursor))%nat with c1 by lia.
  destruct (filled task_details "task"), (filled task_details "date_time");
    try specialize (Hc1 eq_refl eq_refl); try specialize (Hc2 eq_refl eq_refl); lia.
Qed.

Lemma completer_returns_only_after_answers_witness :
  (0 ≤ 12)%nat ∧
  (missing_mandatory SampleDialogue.partial
   ≤ answered_between (stdin SampleDialogue.env) 0 (12 - 0))%nat.
Proof.
  apply (completer_returns_only_after_answers SampleDialogue.env 5
           SampleDialogue.partial
           (run_result_value (ask_follow_up_questions SampleDialogue.env 5
                                SampleDialogue.partial))
           0%nat 12%nat
           (run_log (ask_follow_up_questions SampleDialogue.env 5
                       SampleDialogue.partial))).
  vm_compute. reflexivity.
Defined.

(** Whatever the completer returns was in the mapping before, or is a
    line that the user typed during the call, trimmed and not empty, kept
    under one of the nine fields of the form: nothing is invented, and no
    other key is written. *)
Theorem completer_adds_only_typed_answers env fuel
    (task_details details : gmap string string) cursor cursor' asked :
  ask_follow_up_questions env fuel task_details cursor
  = (Return details, cursor', asked) →
  ∀ key value, details !! key = Some value →
    task_details !! key = Some value ∨
    (key ∈ required_fields.*1 ∧ value ≠ "" ∧
     ∃ i line, (cursor ≤ i < cursor')%nat ∧ stdin env i = Some line ∧
               value = Text.strip line).
Proof.
  rewrite ask_follow_up_questions_unfold.
  destruct (ask_fields env fuel required_fields task_details cursor)
    as [[r c] l] eqn:Hfields.
  intros [= -> -> _]. by apply ask_fields_Return_cursor in Hfields as [_ ?].
Qed.

Lemma completer_adds_only_typed_answers_witness :
  SampleDialogue.partial !! "task" = Some "Team sync" ∨
  ("task" ∈ required_fields.*1 ∧ "Team sync" ≠ "" ∧
   ∃ i line, (0 ≤ i < 12)%nat ∧ stdin SampleDialogue.env i = Some line ∧
             "Team sync" = Text.strip line).
Proof.
  apply (completer_adds_only_typed_answers SampleDialogue.env 5
           SampleDialogue.partial
           (run_result_value (ask_follow_up_questions SampleDialogue.env 5
                                SampleDialogue.partial))
           0%nat 12%nat
           (run_log (ask_follow_up_questions SampleDialogue.env 5
                       SampleDialogue.partial))).
  - vm_compute. reflexivity.
  - vm_compute. reflexivity.
Defined.

(** ** The pipeline driver, beyond the claims *)

Lemma inserted_app (l1 l2 : list effect) : inserted (l1 ++ l2) = inserted l1 ++ inserted l2.
Proof. induction l1 as [|[] l1 IH]; cbn; by rewrite ?IH. Qed.

Lemma prompts_app (l1 l2 : list effect) : prompts (l1 ++ l2) = prompts l1 ++ prompts l2.
Proof. induction l1 as [|[] l1 IH]; cbn; by rewrite ?IH. Qed.

(** What the completer logs, whatever its outcome: prompts only. *)
Lemma ask_again_log env fuel d : ∀ cursor,
  ∃ l', (ask_again env fuel d cursor).2 = EInput <$> l'.
Proof.
  induction fuel as [|fuel IH]; intros cursor; [by exists []|].
  cbn [ask_again]. read_input.
  destruct (stdin env cursor) as [line|]; run_monad; [|by eexists [_]].
  destruct (Text.truthy _); run_monad; [by eexists [_]|].
  destruct (IH (S cursor)) as [l' Hl'].
  destruct (ask_again env fuel d (S cursor)) as [[r c] l]. cbn in *. subst.
  by eexists (_ :: _).
Qed.

Lemma ask_field_log env fuel (task_details : gmap string string) item cursor :
  ∃ l', (ask_field env fuel task_details item cursor).2 = EInput <$> l'.
Proof.
  destruct item as [field d]. unfold ask_field.
  destruct (filled task_details field); [by exists []|].
  read_input.
  destruct (stdin env cursor) as [line|]; run_monad; [|by eexists [_]].
  destruct (Text.truthy _); run_monad; [by eexists [_]|].
  destruct (mandatory d); run_monad; [|by eexists [_]].
  destruct (ask_again_log env fuel d (S cursor)) as [l' Hl'].
  destruct (ask_again env fuel d (S cursor)) as [[[r| |] c] l]; cbn in *; subst;
    eexists (_ :: _); cbn; rewrite ?app_nil_r; reflexivity.
Qed.

Lemma ask_fields_log env fuel fields : ∀ (task_details : gmap string string) cursor,
  ∃ l', (ask_fields env fuel fields task_details cursor).2 = EInput <$> l'.
Proof.
  induction fields as [|item fields IH]; intros task_details cursor; [by exists []|].
  rewrite ask_fields_cons.
  destruct (ask_field_log env fuel task_details item cursor) as [l1 Hl1].
  destruct (ask_field env fuel task_details item cursor) as [[[d1| |] c1] l] eqn:H1;
    cbn in Hl1; subst; [|by eexists..].
  destruct (IH d1 c1) as [l2 Hl2].
  destruct (ask_fields env fuel fields d1 c1) as [[r2 c2] l]. cbn in *. subst.
  exists (l1 ++ l2). by rewrite fmap_app.
Qed.

Lemma inserted_EInput (l : list string) : inserted (EInput <$> l) = [].
Proof. by induction l. Qed.

Lemma lists_EInput (l : list string) : filter (λ e, is_list e = true) (EInput <$> l) = [].
Proof. by induction l. Qed.

(** The run of [main] up to the Building step, when every step before it
    succeeds. *)
Lemma main_reaches_the_builder env fuel path text
    (extracted task_details : gmap string string) cursor asked service :
  transcriber_transcribe env path = TranscriptCompleted text →
  run_result (extract_task_details env text) = Return extracted →
  extracted ≠ ∅ →
  ask_follow_up_questions env fuel extracted 0%nat = (Return task_details, cursor, asked) →
  google_service env = inr service →
  main env fuel path 0%nat
  = (Return (), cursor,
     ([EPrint "Transcribing audio..."; ETranscribe path;
       EPrint (Text.NL +:+ "Transcript:" +:+ Text.NL +:+ text)]
      ++ run_log (extract_task_details env text)
      ++ [EPrint (Text.NL +:+ "Extracted Task Details:");
          EPrint (json_dumps env extracted)]
      ++ asked
      ++ [EPrint (Text.NL +:+ "Final Task Details:");
          EPrint (json_dumps env task_details); EAuthenticate])
     ++ (create_calendar_event env service task_details cursor).2
     ++ (display_upcoming_events env service 10 cursor).2).
Proof.
  intros Htr Hex Hne Hask Hsvc.
  destruct (extract_task_details_run env text 0%nat)
    as (details & l & Hrun & Hres & <- & _).
  assert (details = extracted) as -> by congruence.
  destruct (display_upcoming_events_run env service 10 cursor) as [shown Hshow].
  pose proof (create_calendar_event_unfold env service task_details cursor) as Hcreate.
  set (built := (create_calendar_event env service task_details cursor).2) in *.
  assert (create_calendar_event env service task_details cursor
          = (Return (), cursor, built)) as Hcreate'.
  { unfold built. by rewrite Hcreate. }
  unfold main, transcribe_audio. rewrite Htr. run_monad. rewrite Hrun.
  rewrite (bool_decide_eq_false_2 _ Hne). run_monad. rewrite Hask. run_monad.
  unfold authenticate_google_calendar. rewrite Hsvc. run_monad.
  rewrite Hcreate', Hshow. cbn.
  f_equal. unfold run_log. rewrite Hrun. cbn [snd].
  rewrite <- !(assoc_L (++)). cbn. f_equal.
  by rewrite <- !(assoc_L (++)).
Qed.

(** When the transcription fails, by an exception or by an error status,
    [main] reports it and returns at once: no extraction, no question, no
    authorization, nothing for the calendar. *)
Theorem failed_transcription_halts env fuel path :
  (∀ text, transcriber_transcribe env path ≠ TranscriptCompleted text) →
  ∃ reason,
    main env fuel path 0%nat
    = (Return (), 0%nat,
       [EPrint "Transcribing audio..."; ETranscribe path; EPrint reason;
        EPrint "Failed to transcribe audio."]) ∧
    (∀ msg, transcriber_transcribe env path = TranscribeRaised msg →
            reason = "Transcription error: " +:+ msg) ∧
    (∀ error, transcriber_transcribe env path = TranscriptError error →
              reason = "Transcription failed: " +:+ error).
Proof.
  intros Hfail. unfold main, transcribe_audio.
  destruct (transcriber_transcribe env path) as [msg|error|text] eqn:Htr; run_monad.
  - eexists. split; [reflexivity|]. split; intros ? [= <-]; reflexivity.
  - eexists. split; [reflexivity|]. split; intros ? [= <-]; reflexivity.
  - by destruct (Hfail text).
Qed.

Lemma failed_transcription_halts_witness :
  ∃ reason,
    main Edge.deaf_env 1 "audio.wav" 0%nat
    = (Return (), 0%nat,
       [EPrint "Transcribing audio..."; ETranscribe "audio.wav"; EPrint reason;
        EPrint "Failed to transcribe audio."]) ∧
    (∀ msg, transcriber_transcribe Edge.deaf_env "audio.wav" = TranscribeRaised msg →
            reason = "Transcription error: " +:+ msg) ∧
    (∀ error, transcriber_transcribe Edge.deaf_env "audio.wav" = TranscriptError error →
              reason = "Transcription failed: " +:+ error).
Proof.
  apply (failed_transcription_halts Edge.deaf_env 1 "audio.wav").
  intros text. discriminate.
Defined.


Lemma quiet_log (l : list effect) :
  Forall quiet l →
  prompts l = [] ∧ inserted l = [] ∧ filter (λ e, is_list e = true) l = [].
Proof.
  induction 1 as [|[] l Hx _ (IH1 & IH2 & IH3)]; cbn in *; try done.
Qed.

Lemma ask_follow_up_questions_log env fuel (task_details : gmap string string) cursor :
  ∃ typed,
    (ask_follow_up_questions env fuel task_details cursor).2
    = EPrint (Text.NL +:+ "To create a detailed calendar event, please provide additional information where needed."
              +:+ Text.NL) :: (EInput <$> typed).
Proof.
  rewrite ask_follow_up_questions_unfold.
  destruct (ask_fields_log env fuel required_fields task_details cursor) as [typed Ht].
  destruct (ask_fields env fuel required_fields task_details cursor) as [[r c] l].
  cbn in *. subst. by exists typed.
Qed.

(** The authorization is not guarded: when it fails after a successful
    extraction and completion, the exception leaves [main].  The user has
    answered the whole form by then, and nothing reaches the calendar. *)
Theorem refused_authorization_escapes env fuel path text
    (extracted task_details : gmap string string) cursor asked msg :
  transcriber_transcribe env path = TranscriptCompleted text →
  run_result (extract_task_details env text) = Return extracted →
  extracted ≠ ∅ →
  ask_follow_up_questions env fuel extracted 0%nat = (Return task_details, cursor, asked) →
  google_service env = inl msg →
  run_result (main env fuel path) = Raise msg ∧
  last (run_log (main env fuel path)) = Some EAuthenticate ∧
  prompts (run_log (main env fuel path)) = prompts asked ∧
  inserted (run_log (main env fuel path)) = [] ∧
  filter (λ e, is_list e = true) (run_log (main env fuel path)) = [].
Proof.
  intros Htr Hex Hne Hask Hsvc.
  destruct (extract_task_details_run env text 0%nat)
    as (details & l & Hrun & Hres & _ & Hq).
  assert (details = extracted) as -> by congruence.
  destruct (ask_follow_up_questions_log env fuel extracted 0%nat) as [typed Htyped].
  rewrite Hask in Htyped. cbn [snd] in Htyped.
  apply quiet_log in Hq as (Hq1 & Hq2 & Hq3).
  assert (main env fuel path 0%nat
          = (Raise msg, cursor,
             [EPrint "Transcribing audio..."; ETranscribe path;
              EPrint (Text.NL +:+ "Transcript:" +:+ Text.NL +:+ text)]
             ++ l
             ++ [EPrint (Text.NL +:+ "Extracted Task Details:");
                 EPrint (json_dumps env extracted)]
             ++ asked
             ++ [EPrint (Text.NL +:+ "Final Task Details:");
                 EPrint (json_dumps env task_details); EAuthenticate])) as Hmain.
  { unfold main, transcribe_audio. rewrite Htr. run_monad. rewrite Hrun.
    rewrite (bool_decide_eq_false_2 _ Hne). run_monad. rewrite Hask. run_monad.
    unfold authenticate_google_calendar. rewrite Hsvc. run_monad.
    apply (f_equal2 pair); [reflexivity|].
    rewrite <- ?(assoc_L (++)). cbn. repeat f_equal;
      by rewrite <- ?(assoc_L (++)). }
  unfold run_result, run_log. rewrite Hmain. cbn [fst snd].
  split_and!.
  - done.
  - rewrite !(assoc_L (++)).
    change [EPrint (Text.NL +:+ "Final Task Details:");
            EPrint (json_dumps env task_details); EAuthenticate]
      with ([EPrint (Text.NL +:+ "Final Task Details:");
             EPrint (json_dumps env task_details)] ++ [EAuthenticate]).
    rewrite (assoc_L (++)). apply last_snoc.
  - rewrite !prompts_app, Hq1. cbn. by rewrite app_nil_r.
  - rewrite !inserted_app, Hq2, Htyped. cbn. by rewrite inserted_EInput.
  - rewrite !filter_app, Hq3, Htyped. cbn. by rewrite lists_EInput.
Qed.

Lemma refused_authorization_escapes_witness :
  run_result (main Edge.unauthorized_env 0 "audio.wav") = Raise "invalid_grant" ∧
  last (run_log (main Edge.unauthorized_env 0 "audio.wav")) = Some EAuthenticate ∧
  prompts (run_log (main Edge.unauthorized_env 0 "audio.wav"))
  = prompts (run_log (ask_follow_up_questions Edge.unauthorized_env 0 Sample.extracted)) ∧
  inserted (run_log (main Edge.unauthorized_env 0 "audio.wav")) = [] ∧
  filter (λ e, is_list e = true) (run_log (main Edge.unauthorized_env 0 "audio.wav")) = [].
Proof.
  apply (refused_authorization_escapes Edge.unauthorized_env 0 "audio.wav"
           "Schedule a meeting with Alice at 3pm tomorrow."
           Sample.extracted Sample.extracted 7%nat
           (run_log (ask_follow_up_questions Edge.unauthorized_env 0 Sample.extracted))
           "invalid_grant").
  - reflexivity.
  - vm_compute. reflexivity.
  - apply insert_non_empty.
  - vm_compute. reflexivity.
  - reflexivity.
Defined.

Lemma build_event_summary env (task_details : gmap string string) title
    start_time end_time :
  summary (build_event env task_details title start_time end_time) = title.
Proof.
  unfold build_event, add_rsvp, add_recurrence, add_notes, add_attachments,
    add_participants.
  repeat (case_match; cbn); reflexivity.
Qed.

Lemma display_upcoming_events_log env service max_results cursor :
  inserted (display_upcoming_events env service max_results cursor).2 = [] ∧
  prompts (display_upcoming_events env service max_results cursor).2 = [] ∧
  length (filter (λ e, is_list e = true)
            (display_upcoming_events env service max_results cursor).2) = 1%nat.
Proof.
  assert (Hitems : ∀ events,
    ∃ lines, print_items events cursor = (Return (), cursor, EPrint <$> lines)).
  { induction events as [|event events [lines IH]]; [by exists []|].
    unfold print_items; fold print_items. unfold print_item. run_monad.
    rewrite IH. by eexists (_ :: _). }
  assert (Hprints : ∀ lines : list string,
    inserted (EPrint <$> lines) = [] ∧ prompts (EPrint <$> lines) = [] ∧
    filter (λ e, is_list e = true) (EPrint <$> lines) = []).
  { intros lines. by induction lines. }
  unfold display_upcoming_events. run_monad.
  destruct (events_list service _ _) as [msg|[|event events]]; run_monad; [done..|].
  destruct (Hitems (event :: events)) as [lines ->].
  destruct (Hprints lines) as (H1 & H2 & H3).
  cbn [snd inserted prompts]. rewrite ?app_nil_r, H1, H2.
  split_and!; [done..|].
  rewrite !filter_cons, H3. cbn [is_list].
  repeat case_decide; done.
Qed.

Lemma create_calendar_event_never_prompts env service
    (task_details : gmap string string) cursor :
  prompts (create_calendar_event env service task_details cursor).2 = [] ∧
  filter (λ e, is_list e = true)
    (create_calendar_event env service task_details cursor).2 = [].
Proof.
  rewrite create_calendar_event_unfold. cbn [snd].
  destruct (task_details !! "date_time") as [[|a s]|]; [done| |done].
  destruct (dateparser_parse env (String a s)) as [start_time| |msg]; [|done..].
  destruct (datetime_add start_time (timedelta_hours 1)) as [msg|end_time]; [done|].
  cbv zeta. by destruct (events_insert service _).
Qed.

(** The whole pipeline on a recognised request.  When the transcript
    holds a meeting request whose time expression parses, the ISO text of
    that time is not empty and parses again at the Building step, the end
    time is in range, the authorization succeeds and the user types a
    line at each of the seven optional questions, then [main] returns
    with any fuel: the mandatory questions are never asked (at most the
    seven optional ones are), exactly one event is handed to the
    calendar, titled after the counterpart and starting at the re-parsed
    time, and the listing is requested once. *)
Theorem recognised_request_is_scheduled env fuel path text counterpart time_expr
    t t' end_time service :
  transcriber_transcribe env path = TranscriptCompleted text →
  Re.search meeting_pattern text = Some [counterpart; time_expr] →
  dateparser_parse env (Text.strip time_expr) = Parsed t →
  isoformat env t ≠ "" →
  dateparser_parse env (isoformat env t) = Parsed t' →
  datetime_add t' (timedelta_hours 1) = inr end_time →
  google_service env = inr service →
  typed_between (stdin env) 0 7 →
  run_result (main env fuel path) = Return () ∧
  (length (prompts (run_log (main env fuel path))) ≤ 7)%nat ∧
  length (filter (λ e, is_list e = true) (run_log (main env fuel path))) = 1%nat ∧
  ∃ event,
    inserted (run_log (main env fuel path)) = [event] ∧
    summary event = "Meeting with " +:+ Text.strip counterpart ∧
    start event = {| dateTime := isoformat env t'; timeZone := zone_label t' |} ∧
    end_ event = {| dateTime := isoformat env end_time; timeZone := zone_label end_time |}.
Proof.
  intros Htr Hsearch Hparse Hiso Hparse' Hadd Hsvc Hlines.
  set (extracted := <["task" := "Meeting with " +:+ Text.strip counterpart]>
                      (<["with_whom" := Text.strip counterpart]>
                         (<["date_time" := isoformat env t]> (∅ : gmap string string)))).
  assert (Hex : run_result (extract_task_details env text) = Return extracted).
  { unfold run_result. rewrite extract_task_details_unfold, Hsearch. cbv zeta.
    change (Re.group 2 [counterpart; time_expr]) with time_expr.
    by rewrite Hparse. }
  assert (Hne : extracted ≠ ∅) by apply insert_non_empty.
  assert (Htask : extracted !! "task" = Some ("Meeting with " +:+ Text.strip counterpart))
    by apply lookup_insert_eq.
  assert (Hdt : extracted !! "date_time" = Some (isoformat env t)).
  { unfold extracted. by rewrite !lookup_insert_ne, lookup_insert_eq by done. }
  assert (Hftask : filled extracted "task" = true).
  { unfold filled. by rewrite Htask. }
  assert (Hfdt : filled extracted "date_time" = true).
  { unfold filled. rewrite Hdt. by apply TextFacts.truthy_true. }
  assert (Hcount : (length (unfilled extracted required_fields) ≤ 7)%nat).
  { unfold unfilled, required_fields. rewrite 2!filter_cons.
    cbn [fst]. rewrite Hftask, Hfdt. case_decide; [done|].
    etrans; [apply length_filter|]. reflexivity. }
  destruct (ask_fields_without_loop env fuel required_fields extracted 0%nat
              required_fields_NoDup) as (details & typed & Hfields & Htyped & _).
  { intros [field d] Hin Hd. cbn in *. unfold required_fields in Hin.
    repeat (apply elem_of_cons in Hin as [[= -> ->]|Hin];
            [first [exact Hftask | exact Hfdt | (cbn in Hd; discriminate)]|]).
    by apply elem_of_nil in Hin. }
  { intros i Hi. apply Hlines. lia. }
  pose proof Hfields as Hkeep. apply ask_fields_Return in Hkeep as (Hkeep & _ & _).
  assert (Hask : ask_follow_up_questions env fuel extracted 0%nat
                 = (Return details, (0 + length (unfilled extracted required_fields))%nat,
                    EPrint (Text.NL +:+ "To create a detailed calendar event, please provide additional information where needed." +:+ Text.NL) :: typed)).
  { rewrite ask_follow_up_questions_unfold. by rewrite Hfields. }
  pose proof (main_reaches_the_builder env fuel path text extracted details _ _ service
                Htr Hex Hne Hask Hsvc) as Hmain.
  destruct (extract_task_details_run env text 0%nat) as (? & l & _ & _ & Hl & Hq).
  apply quiet_log in Hq as (Hq1 & Hq2 & Hq3). rewrite Hl in Hmain.
  destruct (display_upcoming_events_log env service 10
              (0 + length (unfilled extracted required_fields))%nat)
    as (Hd1 & Hd2 & Hd3).
  assert (Hdetails_task :
    details !! "task" = Some ("Meeting with " +:+ Text.strip counterpart)).
  { by apply Hkeep. }
  assert (Hdetails_dt : details !! "date_time" = Some (isoformat env t)).
  { by apply Hkeep. }
  pose proof (create_calendar_event_inserts env service details _ t' end_time
                Hdetails_dt Hiso Hparse' Hadd) as Hins.
  unfold run_log in Hins. rewrite create_calendar_event_unfold in Hins.
  pose proof (create_calendar_event_never_prompts env service details
                (0 + length (unfilled extracted required_fields))%nat) as (Hc1 & Hc2).
  rewrite create_calendar_event_unfold in Hmain, Hc1, Hc2. cbn [snd] in *.
  unfold run_result, run_log. rewrite Hmain. cbn [fst snd].
  split_and!.
  - done.
  - rewrite !prompts_app, Hq1, Hc1, Hd2, Htyped. cbn.
    rewrite prompts_EInput, !app_nil_r, length_fmap. done.
  - rewrite !filter_app, Hq3, Hc2, Htyped. cbn.
    rewrite lists_EInput. cbn. done.
  - eexists. split_and!.
    + rewrite !inserted_app, Hq2, Hins, Hd1, Htyped. cbn.
      rewrite inserted_EInput. reflexivity.
    + rewrite build_event_summary. unfold dict_get. by rewrite Hdetails_task.
    + apply build_event_start.
    + apply build_event_end.
Qed.

Lemma recognised_request_is_scheduled_witness :
  run_result (main Sample.env 0 "audio.wav") = Return () ∧
  (length (prompts (run_log (main Sample.env 0 "audio.wav"))) ≤ 7)%nat ∧
  length (filter (λ e, is_list e = true) (run_log (main Sample.env 0 "audio.wav")))
  = 1%nat ∧
  ∃ event,
    inserted (run_log (main Sample.env 0 "audio.wav")) = [event] ∧
    summary event = "Meeting with " +:+ Text.strip "Alice" ∧
    start event = {| dateTime := isoformat Sample.env Sample.start_time;
                     timeZone := zone_label Sample.start_time |} ∧
    end_ event
    = {| dateTime := isoformat Sample.env
                       {| wall := wall Sample.start_time + timedelta_hours 1;
                          dt_tzinfo := Some Sample.zone |};
         timeZone := zone_label {| wall := wall Sample.start_time + timedelta_hours 1;
                                   dt_tzinfo := Some Sample.zone |} |}.
Proof.
  apply (recognised_request_is_scheduled Sample.env 0 "audio.wav"
           "Schedule a meeting with Alice at 3pm tomorrow." "Alice" "3pm tomorrow"
           Sample.start_time Sample.start_time
           {| wall := wall Sample.start_time + timedelta_hours 1;
              dt_tzinfo := Some Sample.zone |}
           Sample.service).
  - reflexivity.
  - vm_compute. reflexivity.
  - vm_compute. reflexivity.
  - vm_compute. discriminate.
  - vm_compute. reflexivity.
  - vm_compute. reflexivity.
  - reflexivity.
  - intros i Hi. apply lookup_lt_is_Some. cbn. lia.
Defined.

Lemma create_calendar_event_log env service (task_details : gmap string string) cursor :
  ∃ l, create_calendar_event env service task_details cursor = (Return (), cursor, l) ∧
       (length (inserted l) ≤ 1)%nat.
Proof.
  rewrite create_calendar_event_unfold. eexists. split; [reflexivity|].
  destruct (task_details !! "date_time") as [[|a s]|]; [cbn; lia| |cbn; lia].
  destruct (dateparser_parse env (String a s)) as [start_time| |msg]; [|cbn; lia..].
  destruct (datetime_add start_time (timedelta_hours 1)) as [msg|end_time]; [cbn; lia|].
  cbv zeta. destruct (events_insert service _); cbn; lia.
Qed.

Ltac inserted_simpl :=
  repeat (rewrite ?inserted_app, ?inserted_EInput, ?app_nil_r; cbn [inserted app length]).

(** Whatever the services and the user do, a run of [main] hands at most
    one event to the calendar, and when it hands one over it goes on to
    return normally. *)
Theorem main_inserts_at_most_once env fuel path :
  (length (inserted (run_log (main env fuel path))) ≤ 1)%nat ∧
  (inserted (run_log (main env fuel path)) ≠ [] →
   run_result (main env fuel path) = Return ()).
Proof.
  unfold run_log, run_result, main, transcribe_audio.
  destruct (transcriber_transcribe env path) as [msg|error|text]; run_monad;
    [split; [lia|done]..|].
  destruct (extract_task_details_run env text 0%nat) as (details & l & -> & _ & _ & Hq).
  apply quiet_log in Hq as (_ & Hq & _).
  destruct (bool_decide (details = ∅)); run_monad.
  { inserted_simpl. rewrite Hq. cbn. split; [lia|done]. }
  destruct (ask_follow_up_questions_log env fuel details 0%nat) as [typed Ht].
  destruct (ask_follow_up_questions env fuel details 0%nat) as [[r c] la].
  cbn [snd] in Ht. subst la.
  destruct r as [d|e|]; run_monad.
  - unfold authenticate_google_calendar.
    destruct (google_service env) as [msg|service]; run_monad.
    { inserted_simpl. rewrite Hq. cbn. split; [lia|done]. }
    destruct (create_calendar_event_log env service d c) as (lc & -> & Hlc).
    destruct (display_upcoming_events_run env service 10 c) as [shown Hshow].
    destruct (display_upcoming_events_log env service 10 c) as (Hd & _ & _).
    rewrite Hshow in Hd |- *. cbn [snd inserted] in Hd. cbn [fst snd].
    inserted_simpl. rewrite Hq, Hd. inserted_simpl. split; [lia|done].
  - inserted_simpl. rewrite Hq. cbn. split; [lia|done].
  - inserted_simpl. rewrite Hq. cbn. split; [lia|done].
Qed.

(** ** The task extractor, beyond the claims *)

(** [extract_task_details] never raises, not even when the date parser
    does, and reads nothing; it returns the empty mapping or a mapping
    with exactly the keys [task], [with_whom] and [date_time], whose title
    is ["Meeting with "] followed by [with_whom] and so is never empty. *)
Theorem extraction_never_raises env text cursor :
  ∃ details l,
    extract_task_details env text cursor = (Return details, cursor, l) ∧
    prompts l = [] ∧ inserted l = [] ∧
    (details = ∅ ∨
     ∃ who when,
       details = <["task" := "Meeting with " +:+ who]>
                   (<["with_whom" := who]> (<["date_time" := when]> ∅)) ∧
       dom details = ({["task"; "with_whom"; "date_time"]} : gset string) ∧
       filled details "task" = true) ∧
    (∀ msg task, Re.search meeting_pattern text = Some task →
                 dateparser_parse env (Text.strip (Re.group 2 task)) = ParseRaised msg →
                 details = ∅ ∧
                 last l = Some (EPrint ("Error extracting task details: " +:+ msg))).
Proof.
  rewrite extract_task_details_unfold.
  destruct (Re.search meeting_pattern text) as [task|]; cbv zeta.
  - destruct (dateparser_parse env _) as [t| |msg] eqn:Hp;
      eexists _, _; (split; [reflexivity|]); (split_and!; [done|done| |]).
    + right. eexists _, _. split_and!; [reflexivity| |].
      * rewrite !dom_insert_L, dom_empty_L. set_solver.
      * unfold filled. by rewrite lookup_insert_eq.
    + intros msg task' [= <-]. congruence.
    + by left.
    + intros msg task' [= <-]. congruence.
    + by left.
    + intros msg' task' [= <-] Hr. rewrite Hp in Hr. injection Hr as <-. done.
  - eexists _, _. split; [reflexivity|]. split_and!; [done|done|by left|done].
Qed.

Module LazyFacts.
Import Re TextFacts.

(** [.+?] stops at the first place where the rest of the pattern
    succeeds. *)
Lemma lazy_plus_any_first s k res :
  lazy_plus_any s k = Some res →
  ∃ w rest, s = w +:+ rest ∧ w ≠ "" ∧ no_newline w = true ∧ k rest = Some res ∧
    ∀ w1 w2, w = w1 +:+ w2 → w1 ≠ "" → w2 ≠ "" → k (w2 +:+ rest) = None.
Proof.
  induction s as [|c s IH]; cbn; [done|].
  destruct (is_newline c) eqn:Hc; [done|].
  intros [H|[Hnone H]]%ReFacts.orelse_Some.
  - exists (String c ""), s. cbn. rewrite Hc. split_and!; [done..|].
    intros [|a w1] w2 Hw; [done|]. rewrite app_cons in Hw. injection Hw as _ Hw.
    destruct w1; [|done]. rewrite app_nil_l in Hw. by subst.
  - destruct (IH H) as (w & rest & -> & Hne & Hw & Hk & Hfirst).
    exists (String c w), rest. cbn. rewrite Hc, Hw. split_and!; [done..|].
    intros [|a w1] w2 Heq Hw1 Hw2; [done|].
    rewrite app_cons in Heq. injection Heq as _ Heq.
    destruct w1 as [|b w1].
    + rewrite app_nil_l in Heq. by subst.
    + by apply (Hfirst (String b w1) w2).
Qed.

Lemma contains_split c s :
  Text.contains c s = true → ∃ a b, s = a +:+ String c b.
Proof.
  induction s as [|x s IH]; cbn; [done|].
  destruct (Ascii.eqb_spec x c) as [->|Hne]; cbn.
  - intros _. by exists "", s.
  - intros (a & b & ->)%IH. by exists (String x a), b.
Qed.

Lemma search_here r s caps :
  search r s = Some caps → ∃ before s0, s = before +:+ s0 ∧ match_here r s0 = Some caps.
Proof.
  induction s as [|a s IH]; cbn.
  - intros [H|[_ H]]%ReFacts.orelse_Some; [|done]. by exists "", "".
  - intros [H|[_ H]]%ReFacts.orelse_Some.
    + by exists "", (String a s).
    + destruct (IH H) as (before & s0 & -> & Hm). by exists (String a before), s0.
Qed.

Lemma lazy_tail_first s caps res :
  rmatch (Cat (Group LazyPlusAny) (Alt (Lit ["."]) Eos)) s caps (λ _ c, Some c)
  = Some res →
  ∃ front w, res = front ++ [w] ∧ cut_at_period w.
Proof.
  cbn [rmatch].
  intros (w & rest & -> & Hne & Hnl & Hk & Hfirst)%lazy_plus_any_first.
  rewrite ReFacts.consumed_app in Hk.
  exists caps, w. split.
  - revert Hk. cbn [lit_match orelse].
    destruct (Text.strip_prefix "." rest); cbn; [by intros [= ->]|].
    destruct (at_eos rest); [by intros [= ->]|done].
  - destruct w as [|c w]; [done|]. exists c, w. split_and!; [done| |done].
    destruct (Text.contains "." w) eqn:Hdot; [|done].
    apply contains_split in Hdot as (a & b & ->).
    specialize (Hfirst (String c a) (String "." b) eq_refl ltac:(done) ltac:(done)).
    rewrite app_cons in Hfirst. cbn in Hfirst. done.
Qed.

Lemma cat_keeps_last r tail (Q : string → Prop) :
  (∀ s caps res, rmatch tail s caps (λ _ c, Some c) = Some res →
                 ∃ front w, res = front ++ [w] ∧ Q w) →
  ∀ s caps res, rmatch (Cat r tail) s caps (λ _ c, Some c) = Some res →
                ∃ front w, res = front ++ [w] ∧ Q w.
Proof.
  intros Htail s caps res. cbn [rmatch].
  intros (w & rest & c & _ & _ & Hm)%ReFacts.rmatch_sound. by eapply Htail.
Qed.

Lemma meeting_pattern_last : ∀ s caps res,
  rmatch meeting_pattern s caps (λ _ c, Some c) = Some res →
  ∃ front w, res = front ++ [w] ∧ cut_at_period w.
Proof.
  unfold meeting_pattern.
  do 4 apply (cat_keeps_last _ _ cut_at_period).
  apply lazy_tail_first.
Qed.

End LazyFacts.

(** The time expression is cut at the first period after its first
    character: what the search captures as the time holds no newline and,
    beyond its first character, no period (so that ["3.30pm"] is read as
    ["3"]). *)
Theorem time_expression_stops_at_a_period text counterpart time_expr :
  Re.search meeting_pattern text = Some [counterpart; time_expr] →
  ∃ c w,
    time_expr = String c w ∧
    Text.contains "." w = false ∧
    Re.no_newline time_expr = true.
Proof.
  intros (before & s0 & _ & Hm)%LazyFacts.search_here.
  apply LazyFacts.meeting_pattern_last in Hm as (front & w & Hres & Hw).
  change [counterpart; time_expr] with ([counterpart] ++ [time_expr]) in Hres.
  apply app_inj_tail in Hres as [_ ->]. exact Hw.
Qed.

Lemma time_expression_stops_at_a_period_witness :
  ∃ c w,
    "3" = String c w ∧
    Text.contains "." w = false ∧
    Re.no_newline "3" = true.
Proof.
  apply (time_expression_stops_at_a_period
           "Book a meeting with Bob at 3.30pm tomorrow." "Bob" "3").
  vm_compute. reflexivity.
Defined.

(** ** The attendees, beyond the claims *)

Module StripFacts.
Import Text.

Lemma space1_not_at c : space1 c = true → Ascii.eqb c "@" = false.
Proof. destruct c as [[] [] [] [] [] [] [] []]; vm_compute; congruence. Qed.

Lemma space2_not_at c1 c2 :
  space2 c1 c2 = true → Ascii.eqb c1 "@" = false ∧ Ascii.eqb c2 "@" = false.
Proof.
  destruct c1 as [[] [] [] [] [] [] [] []]; try (vm_compute; congruence).
  destruct c2 as [[] [] [] [] [] [] [] []]; vm_compute; try congruence; done.
Qed.

Lemma space3_not_at c1 c2 c3 :
  space3 c1 c2 c3 = true →
  Ascii.eqb c1 "@" = false ∧ Ascii.eqb c2 "@" = false ∧ Ascii.eqb c3 "@" = false.
Proof.
  intros H.
  assert (Ascii.eqb c1 "@" = false ∧ Ascii.eqb c2 "@" = false) as [H1 H2].
  { revert H. unfold space3.
    destruct c1 as [[] [] [] [] [] [] [] []]; try (vm_compute; congruence);
      destruct c2 as [[] [] [] [] [] [] [] []]; try (vm_compute; congruence);
      done. }
  split_and!; [done..|].
  destruct (Ascii.eqb_spec c3 "@") as [->|]; [|done].
  revert H. unfold space3.
  destruct (nat_of_ascii c1 =? 225)%nat, (nat_of_ascii c1 =? 226)%nat,
    (nat_of_ascii c1 =? 227)%nat, (nat_of_ascii c2 =? 154)%nat,
    (nat_of_ascii c2 =? 128)%nat, (nat_of_ascii c2 =? 129)%nat;
    vm_compute; congruence.
Qed.

(** Stripping the left end keeps every [@]. *)
Lemma contains_lstrip_n n : ∀ s,
  (String.length s ≤ n)%nat → contains "@" (lstrip s) = contains "@" s.
Proof.
  induction n as [|n IH]; intros s Hlen.
  { destruct s; [done|cbn in Hlen; lia]. }
  destruct s as [|c1 s1]; [done|]. cbn [lstrip].
  destruct (space1 c1) eqn:H1.
  { cbn [contains]. rewrite (space1_not_at _ H1). cbn. apply IH. cbn in Hlen. lia. }
  destruct s1 as [|c2 s2]; [done|].
  destruct (space2 c1 c2) eqn:H2.
  { apply space2_not_at in H2 as [Ha Hb]. cbn [contains]. rewrite Ha, Hb. cbn.
    apply IH. cbn in Hlen. lia. }
  destruct s2 as [|c3 s3]; [done|].
  destruct (space3 c1 c2 c3) eqn:H3; [|done].
  apply space3_not_at in H3 as (Ha & Hb & Hc). cbn [contains]. rewrite Ha, Hb, Hc. cbn.
  apply IH. cbn in Hlen. lia.
Qed.

Lemma contains_lstrip_rev_n n : ∀ s,
  (String.length s ≤ n)%nat → contains "@" (lstrip_rev s) = contains "@" s.
Proof.
  induction n as [|n IH]; intros s Hlen.
  { destruct s; [done|cbn in Hlen; lia]. }
  destruct s as [|c1 s1]; [done|]. cbn [lstrip_rev].
  destruct (space1 c1) eqn:H1.
  { cbn [contains]. rewrite (space1_not_at _ H1). cbn. apply IH. cbn in Hlen. lia. }
  destruct s1 as [|c2 s2]; [done|].
  destruct (space2 c2 c1) eqn:H2.
  { apply space2_not_at in H2 as [Ha Hb]. cbn [contains]. rewrite Ha, Hb. cbn.
    apply IH. cbn in Hlen. lia. }
  destruct s2 as [|c3 s3]; [done|].
  destruct (space3 c3 c2 c1) eqn:H3; [|done].
  apply space3_not_at in H3 as (Ha & Hb & Hc). cbn [contains]. rewrite Ha, Hb, Hc. cbn.
  apply IH. cbn in Hlen. lia.
Qed.

Lemma contains_rev_app c s : ∀ acc,
  contains c (String.rev_app s acc) = contains c s || contains c acc.
Proof.
  induction s as [|x s IH]; intros acc; [done|].
  cbn [String.rev_app contains]. rewrite IH. cbn [contains].
  destruct (Ascii.eqb x c), (contains c s), (contains c acc); done.
Qed.

Lemma contains_rev c s : contains c (String.rev s) = contains c s.
Proof. unfold String.rev. rewrite contains_rev_app. cbn. by rewrite orb_false_r. Qed.

(** [strip] keeps every [@]. *)
Lemma contains_strip s : contains "@" (strip s) = contains "@" s.
Proof.
  unfold strip, rstrip.
  by rewrite contains_rev, (contains_lstrip_rev_n _ _ (le_n _)), contains_rev,
    (contains_lstrip_n _ _ (le_n _)).
Qed.

(** A text without the character has no piece with it. *)
Lemma contains_split_pieces c sep s :
  contains c s = false → Forall (λ piece, contains c piece = false) (split sep s).
Proof.
  induction s as [|x s IH]; cbn; [by repeat constructor|].
  intros [Hx Hs]%orb_false_iff. specialize (IH Hs).
  destruct (Ascii.eqb x sep); [by repeat constructor|].
  destruct (split sep s) as [|piece pieces].
  { constructor; [cbn; by rewrite Hx|constructor]. }
  apply Forall_cons in IH as [Hp Hps]. constructor; [|done]. cbn. by rewrite Hx, Hp.
Qed.

End StripFacts.

(** The attendee list holds addresses only: every e-mail of the built
    event contains an [@], there are no more attendees than
    comma-separated entries, and a [participants] text without any [@]
    (names only) gives no attendee at all. *)
Theorem attendees_hold_addresses_only env service (task_details : gmap string string)
    s start_time end_time :
  task_details !! "date_time" = Some s →
  s ≠ "" →
  dateparser_parse env s = Parsed start_time →
  datetime_add start_time (timedelta_hours 1) = inr end_time →
  ∃ event,
    inserted (run_log (create_calendar_event env service task_details)) = [event] ∧
    Forall (λ a, Text.contains "@" (email a) = true) (attendees event) ∧
    (length (attendees event)
     ≤ length (Text.split "," (default "" (task_details !! "participants"))))%nat ∧
    (Text.contains "@" (default "" (task_details !! "participants")) = false →
     attendees event = []).
Proof.
  intros Hdt Hne Hparse Hadd. eexists. split.
  - by eapply create_calendar_event_inserts.
  - rewrite build_event_attendees.
    set (pieces := Text.split "," (default "" (task_details !! "participants"))).
    split_and!.
    + apply Forall_fmap, Forall_forall. intros piece [Hat _]%list_elem_of_filter.
      cbn. by rewrite StripFacts.contains_strip.
    + rewrite length_fmap. apply length_filter.
    + intros Hno. apply (StripFacts.contains_split_pieces _ ",") in Hno.
      fold pieces in Hno. induction Hno as [|piece l Hp _ IH]; [done|].
      rewrite filter_cons. case_decide; [congruence|]. exact IH.
Qed.

Lemma attendees_hold_addresses_only_witness :
  ∃ event,
    inserted (run_log (create_calendar_event Sample.env Sample.service Sample.details))
    = [event] ∧
    Forall (λ a, Text.contains "@" (email a) = true) (attendees event) ∧
    (length (attendees event)
     ≤ length (Text.split "," (default "" (Sample.details !! "participants"))))%nat ∧
    (Text.contains "@" (default "" (Sample.details !! "participants")) = false →
     attendees event = []).
Proof.
  apply (attendees_hold_addresses_only Sample.env Sample.service Sample.details
           "2024-12-08T15:00:00-05:00" Sample.start_time
           {| wall := wall Sample.start_time + timedelta_hours 1;
              dt_tzinfo := Some Sample.zone |}).
  - vm_compute. reflexivity.
  - discriminate.
  - vm_compute. reflexivity.
  - vm_compute. reflexivity.
Defined.

(** ** Answers that leave the mapping as it is *)

Lemma ask_fields_blank env fuel fields : ∀ (task_details : gmap string string) cursor,
  (∀ item, item ∈ fields → mandatory item.2 = true →
           filled task_details item.1 = true) →
  (∀ i, (cursor ≤ i < cursor + length (unfilled task_details fields))%nat →
        blank_at (stdin env) i = true) →
  ∃ asked,
    ask_fields env fuel fields task_details cursor
    = (Return task_details, (cursor + length (unfilled task_details fields))%nat, asked).
Proof.
  induction fields as [|[field d] fields IH]; intros task_details cursor Hmand Hblank.
  { exists []. cbn. by rewrite Nat.add_0_r. }
  rewrite ask_fields_cons. unfold unfilled in *. rewrite filter_cons in *. cbn [fst] in *.
  unfold ask_field.
  destruct (filled task_details field) eqn:Hf.
  - unfold mret, M_ret. cbv beta iota.
    case_decide; [done|].
    destruct (IH task_details cursor) as [asked ->]; [|done|by eexists].
    intros item Hin. apply Hmand. by right.
  - assert (mandatory d = false) as Hd.
    { destruct (mandatory d) eqn:Hd; [|done].
      specialize (Hmand (field, d) ltac:(left) Hd). cbn in Hmand. congruence. }
    case_decide; [|done]. cbn [length] in Hblank.
    read_input.
    destruct (blank_at_Some _ _ (Hblank cursor ltac:(lia))) as (line & Hline & Ht).
    rewrite Hline. run_monad. rewrite Ht, Hd. run_monad.
    destruct (IH task_details (S cursor)) as [asked ->].
    + intros item Hin. apply Hmand. by right.
    + intros i Hi. apply Hblank. lia.
    + eexists.
      apply (f_equal2 pair); [apply (f_equal2 pair); [reflexivity|lia]|reflexivity].
Qed.

(** With a title and a time in the mapping, blank answers change
    nothing: the completer reads one line per unfilled optional field
    and, when all of these lines are blank, returns the mapping it was
    given; a mapping with all nine fields is returned without reading a
    line. *)
Theorem blank_optional_answers_change_nothing env fuel
    (task_details : gmap string string) cursor :
  filled task_details "task" = true →
  filled task_details "date_time" = true →
  (∀ i, (cursor ≤ i < cursor + length (unfilled task_details required_fields))%nat →
        blank_at (stdin env) i = true) →
  ∃ asked,
    ask_follow_up_questions env fuel task_details cursor
    = (Return task_details,
       (cursor + length (unfilled task_details required_fields))%nat, asked).
Proof.
  intros Htask Hdt Hblank. rewrite ask_follow_up_questions_unfold.
  destruct (ask_fields_blank env fuel required_fields task_details cursor)
    as [asked ->]; [|done|by eexists].
  intros [field d] Hin Hd. cbn in *. unfold required_fields in Hin.
  repeat (apply elem_of_cons in Hin as [[= -> ->]|Hin];
          [first [exact Htask | exact Hdt | (cbn in Hd; discriminate)]|]).
  by apply elem_of_nil in Hin.
Qed.

Lemma blank_optional_answers_change_nothing_witness :
  ∃ asked,
    ask_follow_up_questions Edge.silent_env 0 Sample.extracted 0%nat
    = (Return Sample.extracted,
       (0 + length (unfilled Sample.extracted required_fields))%nat, asked).
Proof.
  apply (blank_optional_answers_change_nothing Edge.silent_env 0 Sample.extracted 0%nat).
  - vm_compute. reflexivity.
  - vm_compute. reflexivity.
  - intros i _. reflexivity.
Defined.

Example full_mapping_is_not_asked :
  ask_follow_up_questions Edge.silent_env 0 Edge.full 0%nat
  = (Return Edge.full, 0%nat,
     [EPrint (Text.NL +:+ "To create a detailed calendar event, please provide additional information where needed." +:+ Text.NL)]).
Proof. vm_compute. reflexivity. Qed.

(** ** Input that ends before the form is through *)

Section EndedInput.

Context (env : Env).

Implicit Types (task_details details : gmap string string) (item : string * field_spec).

(** With no mandatory field left to ask, lines typed at the first [k]
    questions and none at the next one: [input] raises there, and the
    exception leaves the loop with [S k] questions shown. *)
Lemma ask_fields_input_ends fuel fields : ∀ task_details cursor k,
  NoDup fields.*1 →
  (∀ item, item ∈ fields → mandatory item.2 = true →
           filled task_details item.1 = true) →
  (k < length (unfilled task_details fields))%nat →
  typed_between (stdin env) cursor k →
  stdin env (cursor + k)%nat = None →
  ∃ asked,
    ask_fields env fuel fields task_details cursor
    = (Raise "EOF when reading a line", (cursor + k)%nat, asked) ∧
    asked = EInput <$> take (S k) (first_prompt <$> unfilled task_details fields).
Proof.
  induction fields as [|[field d] fields IH];
    intros task_details cursor k Hnd Hmand Hk Htyped Hend.
  { cbn in Hk. lia. }
  apply NoDup_cons in Hnd as [Hnotin Hnd]. cbn [fmap list_fmap fst] in Hnotin.
  rewrite ask_fields_cons. unfold unfilled in *. rewrite filter_cons in *. cbn [fst] in *.
  unfold ask_field.
  destruct (filled task_details field) eqn:Hf.
  - unfold mret, M_ret. cbv beta iota.
    case_decide; [done|].
    destruct (IH task_details cursor k Hnd) as (asked & -> & ->); [|done..|by eexists].
    intros item Hin. apply Hmand. by right.
  - assert (mandatory d = false) as Hd.
    { destruct (mandatory d) eqn:Hd; [|done].
      specialize (Hmand (field, d) ltac:(left) Hd). cbn in Hmand. congruence. }
    case_decide; [|done]. cbn [length] in Hk.
    assert (Hsame : ∀ response,
      Forall (λ item, filled (<[field := response]> task_details) item.1 = false
                      ↔ filled task_details item.1 = false) fields).
    { intros response. apply Forall_forall. intros [g dg] Hin. cbn.
      unfold filled. rewrite lookup_insert_ne; [done|].
      intros ->. apply Hnotin. apply list_elem_of_fmap. by exists (g, dg). }
    read_input. destruct k as [|k].
    { rewrite Nat.add_0_r in Hend. rewrite Hend. run_monad.
      rewrite Nat.add_0_r. by eexists. }
    destruct (Htyped cursor ltac:(lia)) as [line Hline].
    rewrite Hline. run_monad.
    replace (cursor + S k)%nat with (S cursor + k)%nat in * by lia.
    destruct (Text.truthy (Text.strip line)) eqn:Ht; run_monad.
    + destruct (IH (<[field := Text.strip line]> task_details) (S cursor) k Hnd)
        as (asked & -> & ->).
      { intros [g dg] Hin Hg. cbn. unfold filled.
        rewrite lookup_insert_ne.
        - by apply (Hmand (g, dg)); [right|].
        - intros ->. apply Hnotin. apply list_elem_of_fmap. by exists (g, dg). }
      { rewrite (filter_agree _ _ _ (Hsame _)). lia. }
      { intros i Hi. apply Htyped. lia. }
      { done. }
      rewrite (filter_agree _ _ _ (Hsame _)). by eexists.
    + rewrite Hd. run_monad.
      destruct (IH task_details (S cursor) k Hnd) as (asked & -> & ->).
      { intros item Hin. apply Hmand. by right. }
      { lia. }
      { intros i Hi. apply Htyped. lia. }
      { done. }
      by eexists.
Qed.

End EndedInput.

(** The completer does not guard its reads: when the transcript holds a
    meeting request whose time expression parses, and the input ends
    before the seventh optional question is answered, the exception of
    [input] leaves [main].  The questions up to the one left unanswered
    have been shown, the run stops at that question, before the
    authorization, and nothing is handed to the calendar or listed. *)
Theorem ended_input_escapes env fuel path text counterpart time_expr t k :
  transcriber_transcribe env path = TranscriptCompleted text →
  Re.search meeting_pattern text = Some [counterpart; time_expr] →
  dateparser_parse env (Text.strip time_expr) = Parsed t →
  isoformat env t ≠ "" →
  (k < 7)%nat →
  typed_between (stdin env) 0 k →
  stdin env k = None →
  run_result (main env fuel path) = Raise "EOF when reading a line" ∧
  length (prompts (run_log (main env fuel path))) = S k ∧
  (∃ prompt, last (run_log (main env fuel path)) = Some (EInput prompt)) ∧
  inserted (run_log (main env fuel path)) = [] ∧
  filter (λ e, is_list e = true) (run_log (main env fuel path)) = [].
Proof.
  intros Htr Hsearch Hparse Hiso Hk Hlines Hend.
  set (extracted := <["task" := "Meeting with " +:+ Text.strip counterpart]>
                      (<["with_whom" := Text.strip counterpart]>
                         (<["date_time" := isoformat env t]> (∅ : gmap string string)))).
  assert (Hex : run_result (extract_task_details env text) = Return extracted).
  { unfold run_result. rewrite extract_task_details_unfold, Hsearch. cbv zeta.
    change (Re.group 2 [counterpart; time_expr]) with time_expr.
    by rewrite Hparse. }
  assert (Hne : extracted ≠ ∅) by apply insert_non_empty.
  assert (Hftask : filled extracted "task" = true).
  { unfold filled, extracted. by rewrite lookup_insert_eq. }
  assert (Hfdt : filled extracted "date_time" = true).
  { unfold filled, extracted. rewrite !lookup_insert_ne, lookup_insert_eq by done.
    by apply TextFacts.truthy_true. }
  assert (Hother : ∀ field, field ≠ "task" → field ≠ "with_whom" →
                            field ≠ "date_time" → filled extracted field = false).
  { intros field H1 H2 H3. unfold filled, extracted.
    do 3 (rewrite lookup_insert_ne by congruence). by rewrite lookup_empty. }
  assert (Hseven : unfilled extracted required_fields = drop 2 required_fields).
  { unfold unfilled, required_fields. rewrite !filter_cons, filter_nil. cbn [fst].
    rewrite Hftask, Hfdt, !Hother by done.
    repeat (case_decide; try done). }
  destruct (ask_fields_input_ends env fuel required_fields extracted 0%nat k
              required_fields_NoDup) as (typed & Hfields & Htyped).
  { intros [field d] Hin Hd. cbn in *. unfold required_fields in Hin.
    repeat (apply elem_of_cons in Hin as [[= -> ->]|Hin];
            [first [exact Hftask | exact Hfdt | (cbn in Hd; discriminate)]|]).
    by apply elem_of_nil in Hin. }
  { rewrite Hseven. cbn. lia. }
  { done. }
  { done. }
  assert (Hask : ask_follow_up_questions env fuel extracted 0%nat
                 = (Raise "EOF when reading a line", k,
                    EPrint (Text.NL +:+ "To create a detailed calendar event, please provide additional information where needed." +:+ Text.NL) :: typed)).
  { rewrite ask_follow_up_questions_unfold. by rewrite Hfields. }
  destruct (extract_task_details_run env text 0%nat)
    as (details & l & Hrun & Hres & _ & Hq).
  assert (details = extracted) as -> by congruence.
  apply quiet_log in Hq as (Hq1 & Hq2 & Hq3).
  assert (main env fuel path 0%nat
          = (Raise "EOF when reading a line", k,
             [EPrint "Transcribing audio..."; ETranscribe path;
              EPrint (Text.NL +:+ "Transcript:" +:+ Text.NL +:+ text)]
             ++ l
             ++ [EPrint (Text.NL +:+ "Extracted Task Details:");
                 EPrint (json_dumps env extracted)]
             ++ EPrint (Text.NL +:+ "To create a detailed calendar event, please provide additional information where needed." +:+ Text.NL) :: typed)) as Hmain.
  { unfold main, transcribe_audio. rewrite Htr. run_monad. rewrite Hrun.
    rewrite (bool_decide_eq_false_2 _ Hne). run_monad. rewrite Hask. run_monad.
    apply (f_equal2 pair); [reflexivity|].
    rewrite <- ?(assoc_L (++)). cbn. repeat f_equal. }
  assert (Hlen : length (first_prompt <$> unfilled extracted required_fields) = 7%nat).
  { rewrite Hseven. reflexivity. }
  set (questions := first_prompt <$> unfilled extracted required_fields) in *.
  clearbody questions.
  unfold run_result, run_log. rewrite Hmain. cbn [fst snd].
  split_and!.
  - done.
  - rewrite !prompts_app, Hq1, Htyped. cbn.
    rewrite prompts_EInput, length_take, Hlen. lia.
  - destruct questions as [|prompt rest]; [done|].
    rewrite Htyped, firstn_cons, fmap_cons.
    destruct (EInput <$> take k rest) as [|e others] eqn:Hothers.
    + exists prompt. rewrite !(assoc_L (++)).
      change (?x :: [EInput prompt]) with ([x] ++ [EInput prompt]).
      rewrite (assoc_L (++)). apply last_snoc.
    + assert (∃ prompt', last (e :: others) = Some (EInput prompt'))
        as [prompt' Hlast].
      { rewrite <- Hothers, fmap_last.
        destruct (last (take k rest)) as [prompt'|] eqn:Hl; [by eexists|].
        apply last_None in Hl. by rewrite Hl in Hothers. }
      exists prompt'. rewrite !(assoc_L (++)).
      change (?x :: EInput prompt :: e :: others)
        with ([x; EInput prompt] ++ e :: others).
      rewrite (assoc_L (++)). rewrite last_app, Hlast. done.
  - rewrite !inserted_app, Hq2, Htyped. cbn. by rewrite inserted_EInput.
  - rewrite !filter_app, Hq3, Htyped. cbn. by rewrite lists_EInput.
Qed.

Lemma ended_input_escapes_witness :
  run_result (main Edge.ended_env 0 "audio.wav") = Raise "EOF when reading a line" ∧
  length (prompts (run_log (main Edge.ended_env 0 "audio.wav"))) = 4%nat ∧
  (∃ prompt, last (run_log (main Edge.ended_env 0 "audio.wav"))
             = Some (EInput prompt)) ∧
  inserted (run_log (main Edge.ended_env 0 "audio.wav")) = [] ∧
  filter (λ e, is_list e = true) (run_log (main Edge.ended_env 0 "audio.wav")) = [].
Proof.
  apply (ended_input_escapes Edge.ended_env 0 "audio.wav"
           "Schedule a meeting with Alice at 3pm tomorrow." "Alice" "3pm tomorrow"
           Sample.start_time 3%nat).
  - reflexivity.
  - vm_compute. reflexivity.
  - vm_compute. reflexivity.
  - vm_compute. discriminate.
  - lia.
  - intros i Hi. apply lookup_lt_is_Some. cbn. lia.
  - reflexivity.
Defined.
